(** * Transkribus export to page records: a model of [dataset.py]

    The development follows the three functions of the module:
    [find_file], [remove_transkribus_metadata] and
    [dataset_generator_transkribus].  Python values are embedded as they
    are used there: text as sequences of code points, the dictionaries
    returned by the XML parser as insertion-ordered association lists,
    exceptions as an error type, generators as the trace of what they
    yield together with the way they end. *)

From Stdlib Require Import List NArith ZArith Bool Ascii String Lia.
Import ListNotations.

Set Implicit Arguments.
Set Warnings "-register-all".
Open Scope string_scope.
Open Scope list_scope.

(** ** Text *)

(** A Python [str] is a sequence of Unicode code points. *)
Definition str := list N.

(** Literals of the source are ASCII; [u] reads each byte as its code
    point. *)
Fixpoint u (s : string) : str :=
  match s with
  | EmptyString => []
  | String c s' => N_of_ascii c :: u s'
  end.
Coercion u : string >-> str.

(** The double quote, written by its code point. *)
Definition dquote : str := [34%N].

Definition str_eqb (a b : str) : bool :=
  if list_eq_dec N.eq_dec a b then true else false.

(** [str.isspace] on one code point, which is also the class [\s] of
    [re] on text patterns. *)
Definition isspace (c : N) : bool :=
  ((9 <=? c) && (c <=? 13) || (28 <=? c) && (c <=? 32)
   || (c =? 133) || (c =? 160) || (c =? 5760)
   || (8192 <=? c) && (c <=? 8202)
   || (c =? 8232) || (c =? 8233) || (c =? 8239) || (c =? 8287)
   || (c =? 12288))%N.

(** [s.startswith(prefix)], and what is left of [s] behind the prefix. *)
Fixpoint strip_prefix (prefix s : str) : option str :=
  match prefix, s with
  | [], _ => Some s
  | a :: prefix', b :: s' => if (a =? b)%N then strip_prefix prefix' s' else None
  | _ :: _, [] => None
  end.

Definition startswith (s prefix : str) : bool :=
  match strip_prefix prefix s with Some _ => true | None => false end.

(** ** Regular expressions

    The fragment of [re] that the pattern of the module uses, with the
    priorities of a backtracking matcher: a starred class takes as many
    code points as it can and gives them back one at a time, an optional
    group is tried before it is skipped.  [k] is what has to match
    behind. *)
Inductive regex :=
| Lit (l : str)
| Star (class : N -> bool)
| Opt (r : regex)
| Seq (r1 r2 : regex).

Fixpoint star (class : N -> bool) (s : str) (k : str -> option str) : option str :=
  match s with
  | c :: s' =>
      if class c then
        match star class s' k with
        | Some rest => Some rest
        | None => k s
        end
      else k s
  | [] => k []
  end.

Fixpoint rmatch (r : regex) (s : str) (k : str -> option str) : option str :=
  match r with
  | Lit l => match strip_prefix l s with Some s' => k s' | None => None end
  | Star class => star class s k
  | Opt r' => match rmatch r' s k with Some rest => Some rest | None => k s end
  | Seq r1 r2 => rmatch r1 s (fun s' => rmatch r2 s' k)
  end.

(** [pattern.match(s)]: the text behind the match at the head of [s]. *)
Definition match_at (r : regex) (s : str) : option str := rmatch r s Some.

(** [pattern.sub("", s)]: the leftmost match is dropped and the search
    goes on behind it; a position with no match (or an empty one) keeps its
    code point. *)
Fixpoint sub_from (r : regex) (fuel : nat) (s : str) : str :=
  match fuel with
  | O => s
  | S fuel' =>
      match s with
      | [] => []
      | c :: s' =>
          match match_at r s with
          | Some rest =>
              if (List.length rest <? List.length s)%nat then sub_from r fuel' rest
              else c :: sub_from r fuel' s'
          | None => c :: sub_from r fuel' s'
          end
      end
  end.

Definition sub (r : regex) (s : str) : str := sub_from r (List.length s) s.

Definition not_char (x : string) (c : N) : bool := negb (str_eqb [c] x).

(** [r"\s*<TranskribusMetadata[^>]*/?>([^<]*</TranskribusMetadata>)?"] *)
Definition transkribus_metadata_tag_pattern : regex :=
  Seq (Star isspace)
 (Seq (Lit "<TranskribusMetadata")
 (Seq (Star (not_char ">"))
 (Seq (Opt (Lit "/"))
 (Seq (Lit ">")
      (Opt (Seq (Star (not_char "<")) (Lit "</TranskribusMetadata>"))))))).

Definition remove_transkribus_metadata (xml : str) : str :=
  sub transkribus_metadata_tag_pattern xml.

(** ** Exceptions and results *)

Inductive exn :=
| KeyError | TypeError | ValueError | AttributeError
| NotADirectoryError | OSError | UnicodeDecodeError | ExpatError.

Inductive result (A : Type) :=
| Ok (a : A)
| Err (e : exn).
Arguments Ok {A} a.
Arguments Err {A} e.

Definition bind {A B} (r : result A) (k : A -> result B) : result B :=
  match r with
  | Ok a => k a
  | Err e => Err e
  end.

Declare Scope py_scope.
Delimit Scope py_scope with py.
Notation "x <- r ;; k" := (bind r (fun x => k))
  (at level 61, r at next level, right associativity) : py_scope.
Open Scope py_scope.

(** A comprehension over a list: the elements are evaluated from left to
    right and the first exception ends it. *)
Fixpoint mapM {A B} (f : A -> result B) (l : list A) : result (list B) :=
  match l with
  | [] => Ok []
  | a :: l' => b <- f a ;; bs <- mapM f l' ;; Ok (b :: bs)
  end.

(** ** Values

    What the XML parser returns is built from [None], text, lists and
    dictionaries with text keys; [PInt] is the result of [int]. *)
Inductive pyval :=
| PNone
| PInt (z : Z)
| PStr (s : str)
| PList (l : list pyval)
| PDict (items : list (str * pyval)).

(** Dictionaries keep insertion order; a key appears once. *)
Fixpoint dict_get {V} (k : str) (d : list (str * V)) : option V :=
  match d with
  | [] => None
  | (k', v) :: d' => if str_eqb k k' then Some v else dict_get k d'
  end.

Fixpoint dict_set {V} (k : str) (v : V) (d : list (str * V)) : list (str * V) :=
  match d with
  | [] => [(k, v)]
  | (k', v') :: d' => if str_eqb k k' then (k, v) :: d' else (k', v') :: dict_set k v d'
  end.

(** [v[k]] for a text key [k]. *)
Definition getitem (v : pyval) (k : str) : result pyval :=
  match v with
  | PDict d => match dict_get k d with Some x => Ok x | None => Err KeyError end
  | _ => Err TypeError
  end.

(** [iter(v)], run to its end: a dictionary gives its keys, a text its
    code points. *)
Definition iter (v : pyval) : result (list pyval) :=
  match v with
  | PList l => Ok l
  | PDict d => Ok (map (fun kv => PStr (fst kv)) d)
  | PStr s => Ok (map (fun c => PStr [c]) s)
  | PNone | PInt _ => Err TypeError
  end.

(** *** [int]

    Surrounding white space is dropped, a sign may come first, and the
    digits may be separated by single underscores.  The digits read here
    are the ASCII ones; the decimal digits of other scripts, which [int]
    also reads, raise [ValueError] in this model, and the interpreter's
    bound on the number of digits is not applied. *)
Fixpoint drop_while (class : N -> bool) (s : str) : str :=
  match s with
  | c :: s' => if class c then drop_while class s' else s
  | [] => []
  end.

Definition lstrip (s : str) : str := drop_while isspace s.

Definition strip (s : str) : str := rev (lstrip (rev (lstrip s))).

Definition digit (c : N) : option Z :=
  if ((48 <=? c) && (c <=? 57))%N then Some (Z.of_N (c - 48)) else None.

Fixpoint digits (acc : Z) (after_digit : bool) (s : str) : option Z :=
  match s with
  | [] => if after_digit then Some acc else None
  | c :: s' =>
      match digit c with
      | Some d => digits (acc * 10 + d) true s'
      | None => if (c =? 95)%N && after_digit then digits acc false s' else None
      end
  end.

Definition int_of_str (s : str) : option Z :=
  match strip s with
  | 43%N :: ds => digits 0 false ds
  | 45%N :: ds => option_map Z.opp (digits 0 false ds)
  | ds => digits 0 false ds
  end.

Definition int (v : pyval) : result Z :=
  match v with
  | PInt z => Ok z
  | PStr s => match int_of_str s with Some z => Ok z | None => Err ValueError end
  | _ => Err TypeError
  end.

(** *** [urllib.parse.unquote] *)

Definition hexdig (c : N) : option N :=
  (if (48 <=? c) && (c <=? 57) then Some (c - 48)
   else if (65 <=? c) && (c <=? 70) then Some (c - 55)
   else if (97 <=? c) && (c <=? 102) then Some (c - 87)
   else None)%N.

(** [unquote_to_bytes] on an ASCII run: [%XX] becomes the byte, any other
    [%] stays. *)
Fixpoint unquote_to_bytes (s : list N) : list N :=
  match s with
  | [] => []
  | c :: s' =>
      if (c =? 37)%N then
        match s' with
        | h1 :: h2 :: rest =>
            match hexdig h1, hexdig h2 with
            | Some a, Some b => (16 * a + b)%N :: unquote_to_bytes rest
            | _, _ => c :: unquote_to_bytes s'
            end
        | _ => c :: unquote_to_bytes s'
        end
      else c :: unquote_to_bytes s'
  end.

Definition is_continuation (b : N) : bool := ((128 <=? b) && (b <=? 191))%N.

Definition replacement : N := 65533%N.

(** [bytes.decode("utf-8", "replace")]: an invalid start byte, and each
    longest well-formed beginning of a sequence that its next byte breaks
    or the end of the data cuts, becomes U+FFFD. *)
Fixpoint decode_replace (bs : list N) : str :=
  match bs with
  | [] => []
  | b1 :: t1 =>
      (if b1 <? 128 then b1 :: decode_replace t1
       else if b1 <? 194 then replacement :: decode_replace t1
       else if b1 <? 224 then
         match t1 with
         | [] => [replacement]
         | b2 :: t2 =>
             if is_continuation b2 then (b1 * 64 + b2 - 12416) :: decode_replace t2
             else replacement :: decode_replace t1
         end
       else if b1 <? 240 then
         match t1 with
         | [] => [replacement]
         | b2 :: t2 =>
             if negb (is_continuation b2)
                || (if b2 <? 160 then b1 =? 224 else b1 =? 237)
             then replacement :: decode_replace t1
             else
               match t2 with
               | [] => [replacement]
               | b3 :: t3 =>
                   if is_continuation b3
                   then (b1 * 4096 + b2 * 64 + b3 - 925824) :: decode_replace t3
                   else replacement :: decode_replace t2
               end
         end
       else if b1 <? 245 then
         match t1 with
         | [] => [replacement]
         | b2 :: t2 =>
             if negb (is_continuation b2)
                || (if b2 <? 144 then b1 =? 240 else b1 =? 244)
             then replacement :: decode_replace t1
             else
               match t2 with
               | [] => [replacement]
               | b3 :: t3 =>
                   if negb (is_continuation b3) then replacement :: decode_replace t2
                   else
                     match t3 with
                     | [] => [replacement]
                     | b4 :: t4 =>
                         if is_continuation b4
                         then (b1 * 262144 + b2 * 4096 + b3 * 64 + b4 - 63447168)
                                :: decode_replace t4
                         else replacement :: decode_replace t3
                     end
               end
         end
       else replacement :: decode_replace t1)%N
  end.

(** The text is cut into its ASCII runs; each run is unquoted to bytes
    and decoded, what lies between the runs is kept.  [run] holds the
    current run, last code point first. *)
Fixpoint unquote_runs (run : list N) (s : str) : str :=
  match s with
  | [] => decode_replace (unquote_to_bytes (rev run))
  | c :: s' =>
      if (c <? 128)%N then unquote_runs (c :: run) s'
      else decode_replace (unquote_to_bytes (rev run)) ++ c :: unquote_runs [] s'
  end.

Definition unquote_str (s : str) : str :=
  if existsb (N.eqb 37) s then unquote_runs [] s else s.

(** [unquote(v)]: the test ['%' not in v] and the look-up of [v.split]
    decide what a value that is not text raises. *)
Definition unquote (v : pyval) : result str :=
  match v with
  | PStr s => Ok (unquote_str s)
  | PNone | PInt _ => Err TypeError
  | PList l =>
      if existsb (fun x => match x with PStr s => str_eqb s "%" | _ => false end) l
      then Err TypeError else Err AttributeError
  | PDict d =>
      match dict_get (u "%") d with
      | Some _ => Err TypeError
      | None => Err AttributeError
      end
  end.

(** ** The XML parser

    [xmltodict.parse] reads the document with expat and folds the events
    into dictionaries.  The tokenizer is left to the host ([expat]
    below); what it delivers is the element tree: a tag, the attributes,
    the child elements, and the character data of the element itself with
    its pieces joined. *)
Inductive element :=
| Element (tag : str) (attrs : list (str * str)) (children : list element) (text : str).

Definition tag_of (e : element) : str :=
  match e with Element tag _ _ _ => tag end.

(** [push_data(item, key, data)]: a repeated key turns its value into a
    list, a first value is wrapped in one only when the key is in
    [force_list]. *)
Definition push_data (force_list : list str) (item : option (list (str * pyval)))
    (key : str) (data : pyval) : list (str * pyval) :=
  let d := match item with Some d => d | None => [] end in
  match dict_get key d with
  | Some (PList l) => dict_set key (PList (l ++ [data])) d
  | Some value => dict_set key (PList [value; data]) d
  | None =>
      if existsb (str_eqb key) force_list then dict_set key (PList [data]) d
      else dict_set key data d
  end.

(** The value of an element when it ends: its attributes (prefixed with
    [@]) and children in a dictionary, with the stripped character data
    under [#text]; or, with neither attributes nor children, the stripped
    character data alone, [None] when there is none. *)
Fixpoint to_value (force_list : list str) (e : element) : pyval :=
  match e with
  | Element _ attrs children text =>
      let attr_entries :=
        fold_left (fun d kv => dict_set (u "@" ++ fst kv) (PStr (snd kv)) d) attrs [] in
      let item0 := match attr_entries with [] => None | _ => Some attr_entries end in
      let item :=
        fold_left
          (fun item c => Some (push_data force_list item (tag_of c) (to_value force_list c)))
          children item0 in
      let data := strip text in
      match item with
      | Some d =>
          PDict (match data with
                 | [] => d
                 | _ => push_data force_list (Some d) "#text" (PStr data)
                 end)
      | None => match data with [] => PNone | _ => PStr data end
      end
  end.

Definition document (force_list : list str) (root : element) : pyval :=
  PDict (push_data force_list None (tag_of root) (to_value force_list root)).

(** ** The file system *)

(** A path is the sequence of its parts. *)
Definition Path := list str.

Definition child (p : Path) (name : str) : Path := p ++ [name].
Definition parent (p : Path) : Path := removelast p.

(** What a path leads to: a regular file, a directory with its entries
    in the order [iterdir] lists them, or something that is neither (also
    nothing at all).  Every directory of the tree can be listed: a
    directory that [iterdir] refuses to read has no counterpart here. *)
Inductive entry :=
| File
| Dir (entries : list (str * entry))
| Other.

Definition is_file (e : entry) : bool := match e with File => true | _ => false end.
Definition is_dir (e : entry) : bool := match e with Dir _ => true | _ => false end.

(** The rest of the host: reading a file as UTF-8 text, the XML
    tokenizer, and the two operations of [pathlib] that work on the text
    of a path. *)
Record Host := {
  read_text : Path -> result str;
  expat : str -> result element;
  joinpath : Path -> str -> Path;
  path_str : Path -> str
}.

(** [parse_xml(text, force_list=...)] *)
Definition parse_xml (h : Host) (force_list : list str) (text : str) : result pyval :=
  root <- expat h text ;; Ok (document force_list root).

(** ** Generators

    A generator run to its end: what it yielded, and whether it ran off
    its body, executed [return], or raised. *)
Inductive signal :=
| Exhausted
| Returned
| Raised (e : exn).

Record trace (Y : Type) := Trace { yielded : list Y; ended : signal }.
Arguments Trace {Y} yielded ended.

(** A [for] loop in a generator body: the body runs for each element
    until one of the runs returns or raises. *)
Definition for_each {A Y} (body : A -> trace Y) : list A -> trace Y :=
  fix loop (l : list A) : trace Y :=
    match l with
    | [] => Trace [] Exhausted
    | a :: l' =>
        let t := body a in
        match ended t with
        | Exhausted =>
            let t' := loop l' in
            Trace (yielded t ++ yielded t') (ended t')
        | _ => t
        end
    end.

(** A [for] loop over another generator, which is advanced one element
    at a time: the body runs on what the generator yielded, and what the
    generator raised comes after. *)
Definition for_gen {A Y} (g : trace A) (body : A -> trace Y) : trace Y :=
  let t := for_each body (yielded g) in
  match ended t, ended g with
  | Exhausted, Raised e => Trace (yielded t) (Raised e)
  | _, _ => t
  end.

(** An expression that may raise, in a generator body. *)
Definition try {A Y} (r : result A) (k : A -> trace Y) : trace Y :=
  match r with
  | Ok a => k a
  | Err e => Trace [] (Raised e)
  end.

Notation "x <~ r ;; k" := (try r (fun x => k))
  (at level 61, r at next level, right associativity) : py_scope.

(** ** [find_file]

    [items] keeps the entries that are files or directories.  The loop of
    the last line runs over [items]; it is written over [entries] with the
    test of [items] inside, so that the recursion is on the entries of the
    directory ([find_file_items] below gives it back over [items]). *)

Definition is_item (f : str * entry) : bool := is_file (snd f) || is_dir (snd f).

Fixpoint find_file (path : Path) (at_path : entry) (name : str) : trace Path :=
  match at_path with
  | Dir entries =>
      let items := filter is_item entries in
      let file := find (fun f => is_file (snd f) && str_eqb (fst f) name) items in
      match file with
      | Some f => Trace [child path (fst f)] Exhausted
      | None =>
          for_each
            (fun d => if is_item d && is_dir (snd d)
                      then find_file (child path (fst d)) (snd d) name
                      else Trace [] Exhausted)
            entries
      end
  | _ => Trace [] (Raised NotADirectoryError)
  end.

(** ** [dataset_generator_transkribus] *)

(** [v[k1][k2]...] *)
Fixpoint getitems (v : pyval) (keys : list str) : result pyval :=
  match keys with
  | [] => Ok v
  | k :: keys' => x <- getitem v k ;; getitems x keys'
  end.

(** A loop that updates an accumulator and may raise. *)
Fixpoint foldM {A S} (f : S -> A -> result S) (l : list A) (s : S) : result S :=
  match l with
  | [] => Ok s
  | a :: l' => s' <- f s a ;; foldM f l' s'
  end.

(** [[int(c["colId"]) for c in metadata["trpDocMetadata"]["collectionList"]["colList"]]] *)
Definition doc_collections (metadata : pyval) : result (list Z) :=
  cols <- getitems metadata (map u ["trpDocMetadata"; "collectionList"; "colList"]) ;;
  cs <- iter cols ;;
  mapM (fun c => x <- getitem c "colId" ;; int x) cs.

(** [collections and not set(collections).intersection(doc_collections)] *)
Definition filter_miss (collections doc_collections : list Z) : bool :=
  match collections with
  | [] => false
  | _ => negb (existsb (fun c => existsb (Z.eqb c) doc_collections) collections)
  end.

(** The keys of [paths] are whatever [file["@ID"]] is, if it can be
    hashed; the pages look it up with a text or with [None]. *)
Inductive key :=
| KNone
| KInt (z : Z)
| KStr (s : str).

Definition key_eqb (a b : key) : bool :=
  match a, b with
  | KNone, KNone => true
  | KInt x, KInt y => Z.eqb x y
  | KStr x, KStr y => str_eqb x y
  | _, _ => false
  end.

Definition hash (v : pyval) : result key :=
  match v with
  | PNone => Ok KNone
  | PInt z => Ok (KInt z)
  | PStr s => Ok (KStr s)
  | PList _ | PDict _ => Err TypeError
  end.

Definition paths_t := list (key * str).

Fixpoint paths_get (k : key) (paths : paths_t) : option str :=
  match paths with
  | [] => None
  | (k', v) :: paths' => if key_eqb k k' then Some v else paths_get k paths'
  end.

Fixpoint paths_set (k : key) (v : str) (paths : paths_t) : paths_t :=
  match paths with
  | [] => [(k, v)]
  | (k', v') :: paths' =>
      if key_eqb k k' then (k, v) :: paths' else (k', v') :: paths_set k v paths'
  end.

(** [paths[k]] *)
Definition paths_item (paths : paths_t) (k : key) : result str :=
  match paths_get k paths with
  | Some v => Ok v
  | None => Err KeyError
  end.

(** One step of the comprehension: the key, then the value, then the
    store, which hashes the key. *)
Definition store_file (paths : paths_t) (file : pyval) : result paths_t :=
  id <- getitem file "@ID" ;;
  href <- getitems file (map u ["ns3:FLocat"; "@ns2:href"]) ;;
  path <- unquote href ;;
  k <- hash id ;;
  Ok (paths_set k path paths).

Definition store_group (paths : paths_t) (group : pyval) : result paths_t :=
  files <- getitem group "ns3:file" ;;
  fs <- iter files ;;
  foldM store_file fs paths.

(** [{file["@ID"]: unquote(file["ns3:FLocat"]["@ns2:href"])
      for group in mets["ns3:mets"]["ns3:fileSec"]["ns3:fileGrp"]["ns3:fileGrp"]
      for file in group["ns3:file"]}] *)
Definition file_paths (mets : pyval) : result paths_t :=
  groups <- getitems mets (map u ["ns3:mets"; "ns3:fileSec"; "ns3:fileGrp"; "ns3:fileGrp"]) ;;
  gs <- iter groups ;;
  foldM store_group gs [].

(** [next((i for f in fptrs if (i := f["ns3:area"]["@FILEID"]).startswith(prefix)), None)]:
    the pointers behind the first hit are not looked at. *)
Fixpoint first_id (prefix : str) (fptrs : list pyval) : result (option str) :=
  match fptrs with
  | [] => Ok None
  | f :: fptrs' =>
      i <- getitems f (map u ["ns3:area"; "@FILEID"]) ;;
      match i with
      | PStr s => if startswith s prefix then Ok (Some s) else first_id prefix fptrs'
      | _ => Err AttributeError
      end
  end.

Definition next_id (prefix : str) (struct : pyval) : result (option str) :=
  fptrs <- getitem struct "ns3:fptr" ;;
  fs <- iter fptrs ;;
  first_id prefix fs.

Definition id_key (id : option str) : key :=
  match id with
  | Some s => KStr s
  | None => KNone
  end.

(** The truth value of an id: [None] and the empty text are false. *)
Definition truthy (id : option str) : bool :=
  match id with
  | Some (_ :: _) => true
  | _ => false
  end.

Record PageRecord := {
  image : str;
  doc_id : Z;
  sequence : pyval;
  alto : str;
  page : str
}.

(** The body of the loop over the page divisions, up to the [yield]:
    the three ids, then the entries of the dictionary in the order they
    are written. *)
Definition page_record (h : Host) (metadata_root : Path) (doc_id : Z)
    (paths : paths_t) (struct : pyval) : result PageRecord :=
  img_id <- next_id "IMG_" struct ;;
  alto_id <- next_id "ALTO_" struct ;;
  page_id <- next_id "PAGEXML_" struct ;;
  img_path <- paths_item paths (id_key img_id) ;;
  order <- getitem struct "@ORDER" ;;
  alto_text <-
    (if truthy alto_id then
       p <- paths_item paths (id_key alto_id) ;; read_text h (joinpath h metadata_root p)
     else Ok []) ;;
  page_text <-
    (if truthy page_id then
       p <- paths_item paths (id_key page_id) ;;
       xml <- read_text h (joinpath h metadata_root p) ;;
       Ok (remove_transkribus_metadata xml)
     else Ok []) ;;
  Ok {| image := path_str h (joinpath h metadata_root img_path);
        doc_id := doc_id;
        sequence := order;
        alto := alto_text;
        page := page_text |}.

Definition pages (h : Host) (metadata_root : Path) (doc_id : Z) (paths : paths_t)
    (structs : list pyval) : trace PageRecord :=
  for_each
    (fun struct =>
       r <~ page_record h metadata_root doc_id paths struct ;;
       Trace [r] Exhausted)
    structs.

(** The metadata document of a bundle. *)
Definition read_metadata (h : Host) (metadata_path : Path) : result pyval :=
  text <- read_text h metadata_path ;;
  parse_xml h (map u ["colList"]) text.

(** The structure document next to it. *)
Definition read_mets (h : Host) (metadata_root : Path) : result pyval :=
  text <- read_text h (joinpath h metadata_root "mets.xml") ;;
  parse_xml h [] text.

(** The body of the loop over the bundles. *)
Definition bundle (h : Host) (collections : list Z) (metadata_path : Path)
    : trace PageRecord :=
  let metadata_root := parent metadata_path in
  metadata <~ read_metadata h metadata_path ;;
  doc_collections <~ doc_collections metadata ;;
  if filter_miss collections doc_collections then Trace [] Returned
  else
    doc_id <~ (x <- getitems metadata (map u ["trpDocMetadata"; "docId"]) ;; int x) ;;
    title <~ getitems metadata (map u ["trpDocMetadata"; "title"]) ;;
    mets <~ read_mets h metadata_root ;;
    paths <~ file_paths mets ;;
    structs <~
      (divs <- getitems mets (map u ["ns3:mets"; "ns3:structMap"; "ns3:div"; "ns3:div"]) ;;
       iter divs) ;;
    pages h metadata_root doc_id paths structs.

(** [root] is the resolved root directory and [tree] what it leads
    to. *)
Definition dataset_generator_transkribus (h : Host) (root : Path) (tree : entry)
    (collections : list Z) : trace PageRecord :=
  for_gen (find_file root tree "metadata.xml") (bundle h collections).

(** ** A sample export

    One bundle at [/data/doc]: document 42 of collection 7, with two
    pages; the first page has an image and both text layers, the second an
    image and the raw layer only. *)
Module Sample.

Definition leaf (tag text : string) : element := Element tag [] [] text.

Definition metadata_xml : element :=
  Element "trpDocMetadata" []
    [ leaf "docId" "42";
      leaf "title" "Protokol";
      Element "collectionList" []
        [ Element "colList" [] [ leaf "colId" "7"; leaf "colName" "Arkiv" ] "" ] "" ]
    "".

Definition file_xml (id href : string) : element :=
  Element "ns3:file" [(u "ID", u id)]
    [ Element "ns3:FLocat" [(u "ns2:href", u href)] [] "" ] "".

Definition fptr_xml (id : string) : element :=
  Element "ns3:fptr" [] [ Element "ns3:area" [(u "FILEID", u id)] [] "" ] "".

Definition div_xml (order : string) (ids : list string) : element :=
  Element "ns3:div" [(u "ORDER", u order)] (map fptr_xml ids) "".

Definition img_files : list (string * string) :=
  [("IMG_1", "p%201.jpg"); ("IMG_2", "p%202.jpg")].

Definition text_files : list (string * string) :=
  [("ALTO_1", "alto/p1.xml"); ("ALTO_2", "alto/p2.xml"); ("PAGEXML_1", "page/p1.xml")].

Definition group_xml (id : string) (files : list (string * string)) : element :=
  Element "ns3:fileGrp" [(u "ID", u id)] (map (fun f => file_xml (fst f) (snd f)) files) "".

Definition mets_xml : element :=
  Element "ns3:mets" []
    [ Element "ns3:fileSec" []
        [ Element "ns3:fileGrp" [(u "ID", u "MASTER")]
            [ group_xml "IMG" img_files; group_xml "TEXT" text_files ] "" ] "";
      Element "ns3:structMap" []
        [ Element "ns3:div" [(u "TYPE", u "MANUSCRIPT")]
            [ div_xml "1" ["PAGEXML_1"; "IMG_1"; "ALTO_1"];
              div_xml "2" ["IMG_2"; "ALTO_2"] ] "" ] "" ]
    "".

(** The texts of the files are named by what they hold. *)
Definition files : list (Path * str) :=
  [ (map u ["/"; "data"; "doc"; "metadata.xml"], u "metadata");
    (map u ["/"; "data"; "doc"; "mets.xml"], u "mets");
    (map u ["/"; "data"; "doc"; "alto/p1.xml"], u "<alto>1</alto>");
    (map u ["/"; "data"; "doc"; "alto/p2.xml"], u "<alto>2</alto>");
    (map u ["/"; "data"; "doc"; "page/p1.xml"],
       u "<Page> <TranskribusMetadata docId=42/><Text>side 1</Text></Page>") ].

Definition path_eqb (p q : Path) : bool :=
  if list_eq_dec (list_eq_dec N.eq_dec) p q then true else false.

Definition host : Host := {|
  read_text := fun p =>
    match find (fun f => path_eqb (fst f) p) files with
    | Some f => Ok (snd f)
    | None => Err OSError
    end;
  expat := fun text =>
    if str_eqb text "metadata" then Ok metadata_xml
    else if str_eqb text "mets" then Ok mets_xml
    else Err ExpatError;
  joinpath := fun p s => child p s;
  path_str := fun p => List.concat (map (fun part => u "/" ++ part) (tl p))
|}.

Definition root : Path := map u ["/"; "data"].

Definition tree : entry :=
  Dir [ (u "readme.txt", File);
        (u "doc", Dir [ (u "mets.xml", File); (u "metadata.xml", File);
                        (u "alto", Dir [ (u "p1.xml", File); (u "p2.xml", File) ]);
                        (u "page", Dir [ (u "p1.xml", File) ]) ]) ].

End Sample.

(** ** An export of one page

    The structure document of a document with a single page: each file
    group holds one file entry and the page division is the only one. *)
Module OnePage.

Definition mets_xml : element :=
  Element "ns3:mets" []
    [ Element "ns3:fileSec" []
        [ Element "ns3:fileGrp" [(u "ID", u "MASTER")]
            [ Sample.group_xml "IMG" [("IMG_1", "a%20b.xml")];
              Sample.group_xml "PAGEXML" [("PAGEXML_1", "page/a.xml")] ] "" ] "";
      Element "ns3:structMap" []
        [ Element "ns3:div" [(u "TYPE", u "MANUSCRIPT")]
            [ Sample.div_xml "1" ["IMG_1"; "PAGEXML_1"] ] "" ] "" ]
    "".

End OnePage.

(** ** Vocabulary of the statements *)

(** The test of [find_file] for the file it looks for. *)
Definition is_target (name : str) (f : str * entry) : bool :=
  is_file (snd f) && str_eqb (fst f) name.

(** A file pointer that names the file [id]. *)
Definition points_to (fptr : pyval) (id : str) : Prop :=
  getitems fptr (map u ["ns3:area"; "@FILEID"]) = Ok (PStr id).

(** A page division whose pointers are a list and name the files [ids],
    in this order. *)
Definition pointer_list (struct : pyval) (ids : list str) : Prop :=
  exists fptrs,
    getitem struct "ns3:fptr" = Ok (PList fptrs) /\ Forall2 points_to fptrs ids.

(** The first id with the prefix, [None] when there is none. *)
Definition first_with (prefix : str) (ids : list str) : option str :=
  find (fun i => startswith i prefix) ids.

(** A mapping whose keys are all texts. *)
Definition text_keys (paths : paths_t) : Prop :=
  Forall (fun kv => exists s, fst kv = KStr s) paths.

(** The layer of an id: nothing to read without the id. *)
Definition layer (h : Host) (metadata_root : Path) (paths : paths_t) (id : option str)
    : result str :=
  match id with
  | Some i => p <- paths_item paths (KStr i) ;; read_text h (joinpath h metadata_root p)
  | None => Ok []
  end.

(** One generator run after another: the second starts only if the first
    ran off its body. *)
Definition and_then {Y} (t1 t2 : trace Y) : trace Y :=
  match ended t1 with
  | Exhausted => Trace (yielded t1 ++ yielded t2) (ended t2)
  | _ => t1
  end.

(** [c] is the only child with the tag. *)
Definition sole (tag : str) (c : element) (children : list element) : Prop :=
  exists before after,
    children = before ++ c :: after
    /\ tag_of c = tag
    /\ Forall (fun x => tag_of x <> tag) (before ++ after).

(** The dictionary under construction, [None] being none yet. *)
Definition entries_of (item : option (list (str * pyval))) : list (str * pyval) :=
  match item with Some d => d | None => [] end.

(** One step of the loop of [to_value] over the children. *)
Definition push_child (fl : list str) (item : option (list (str * pyval))) (c : element) :=
  Some (push_data fl item (tag_of c) (to_value fl c)).

(** The dictionary of the attributes. *)
Definition attr_entries (attrs : list (str * str)) : list (str * pyval) :=
  fold_left (fun d kv => dict_set (u "@" ++ fst kv) (PStr (snd kv)) d) attrs [].

(** A name that is not the key of an attribute nor of the character
    data: the names of XML elements are such. *)
Definition element_key (k : str) : Prop :=
  k <> u "#text" /\ forall a, u "@" ++ a <> k.

(** A file entry with the id and the location reference. *)
Definition file_entry (file : pyval) (e : str * str) : Prop :=
  getitem file "@ID" = Ok (PStr (fst e))
  /\ getitems file (map u ["ns3:FLocat"; "@ns2:href"]) = Ok (PStr (snd e)).

(** An inner group with the list of its file entries. *)
Definition file_group (group : pyval) (files : list pyval) : Prop :=
  getitem group "ns3:file" = Ok (PList files).

(** The file section with the list of its inner groups. *)
Definition file_section (mets : pyval) (groups : list pyval) : Prop :=
  getitems mets (map u ["ns3:mets"; "ns3:fileSec"; "ns3:fileGrp"; "ns3:fileGrp"])
  = Ok (PList groups).

(** The store of one file entry. *)
Definition store_entry (paths : paths_t) (e : str * str) : paths_t :=
  paths_set (KStr (fst e)) (unquote_str (snd e)) paths.

(** The text [l] occurs in [a]. *)
Definition occurs (l a : str) : Prop := exists x y, a = x ++ l ++ y.

Fixpoint occursb (l a : str) : bool :=
  match strip_prefix l a with
  | Some _ => true
  | None => match a with [] => false | _ :: a' => occursb l a' end
  end.

(** What is left of [b] behind the optional group of the pattern: the
    text behind [</TranskribusMetadata>] if that is what the first [<] of
    [b] opens, and [b] itself otherwise. *)
Definition after_close (b : str) : str :=
  match strip_prefix "</TranskribusMetadata>" (drop_while (not_char "<") b) with
  | Some rest => rest
  | None => b
  end.

(** [a] is [b] with some of its code points left out. *)
Inductive subseq : str -> str -> Prop :=
| subseq_nil : subseq [] []
| subseq_keep c a b : subseq a b -> subseq (c :: a) (c :: b)
| subseq_drop c a b : subseq a b -> subseq a (c :: b).

(** Walking down [rel] from a directory leads to a directory with the
    listing [found], and none of the directories passed on the way holds a
    file called [name]. *)
Inductive reach (name : str) : entry -> list str -> list (str * entry) -> Prop :=
| reach_here entries : reach name (Dir entries) [] entries
| reach_below entries d sub rel found :
    ~ In (name, File) entries ->
    In (d, Dir sub) entries ->
    reach name (Dir sub) rel found ->
    reach name (Dir entries) (d :: rel) found.

(** A tree in which the names of a directory are all different. *)
Inductive tidy : entry -> Prop :=
| tidy_file : tidy File
| tidy_other : tidy Other
| tidy_dir entries :
    NoDup (map fst entries) ->
    Forall (fun d => tidy (snd d)) entries ->
    tidy (Dir entries).

(** The test for the tag of an element. *)
Definition has_tag (k : str) (c : element) : bool := str_eqb (tag_of c) k.

(** The keys that the parser makes for attributes start with [@]. *)
Definition attr_key (k : str) : bool :=
  match k with
  | c :: _ => (c =? 64)%N
  | [] => false
  end.

(** A value in which what stands under the key of an attribute is a
    text, at every depth. *)
Inductive attrs_text : pyval -> Prop :=
| attrs_text_none : attrs_text PNone
| attrs_text_int z : attrs_text (PInt z)
| attrs_text_str s : attrs_text (PStr s)
| attrs_text_list l : Forall attrs_text l -> attrs_text (PList l)
| attrs_text_dict d :
    Forall (fun kv => attrs_text (snd kv)
                      /\ (attr_key (fst kv) = true -> exists s, snd kv = PStr s)) d ->
    attrs_text (PDict d).

(** An element tree in which no tag starts with [@], as in every XML
    document. *)
Inductive plain : element -> Prop :=
| plain_element tag attrs children text :
    attr_key tag = false -> Forall plain children ->
    plain (Element tag attrs children text).

(** What [attrs_text] asks of one entry of a dictionary. *)
Definition entry_ok (kv : str * pyval) : Prop :=
  attrs_text (snd kv) /\ (attr_key (fst kv) = true -> exists s, snd kv = PStr s).

(** *** Percent-encoding

    The encoding that [unquote] undoes, written from its description: a
    code point is kept as it is (never a [%]) or replaced by the bytes of
    its UTF-8 encoding, each written as [%] and two hexadecimal digits. *)

(** The code points that have a UTF-8 encoding: all but the surrogates. *)
Definition scalar (c : N) : Prop := (c < 55296 \/ 57344 <= c < 1114112)%N.

Definition utf8 (c : N) : list N :=
  (if c <? 128 then [c]
   else if c <? 2048 then [192 + c / 64; 128 + c mod 64]
   else if c <? 65536 then [224 + c / 4096; 128 + (c / 64) mod 64; 128 + c mod 64]
   else [240 + c / 262144; 128 + (c / 4096) mod 64; 128 + (c / 64) mod 64;
         128 + c mod 64])%N.

Definition hexchar (d : N) : N := (if d <? 10 then 48 + d else 55 + d)%N.

Definition percent (b : N) : str := [37%N; hexchar (b / 16); hexchar (b mod 16)].

Definition quote_piece (keep : N -> bool) (c : N) : str :=
  if keep c && negb (c =? 37)%N then [c] else flat_map percent (utf8 c).

Definition quote_with (keep : N -> bool) (s : str) : str :=
  flat_map (quote_piece keep) s.

(** * Theorems *)

(** C4: the pattern removes the self-closing and the content-bearing form
    of the tag: both sample texts reduce to [<p>helloworld</p>]. *)
Theorem remove_transkribus_metadata_examples :
  remove_transkribus_metadata
    (u "<p>hello<TranskribusMetadata attr=" ++ dquote ++ u "x" ++ dquote
     ++ u "/>world</p>")
    = u "<p>helloworld</p>"
  /\ remove_transkribus_metadata
       (u "<p>hello<TranskribusMetadata attr=" ++ dquote ++ u "x" ++ dquote
        ++ u ">junk</TranskribusMetadata>world</p>")
     = u "<p>helloworld</p>".
Proof. split; vm_compute; reflexivity. Qed.

(** ** Loops *)

Lemma for_each_cons {A Y} (body : A -> trace Y) (a : A) (l : list A) :
  for_each body (a :: l) =
  match ended (body a) with
  | Exhausted =>
      Trace (yielded (body a) ++ yielded (for_each body l)) (ended (for_each body l))
  | _ => body a
  end.
Proof. reflexivity. Qed.

(** A loop whose runs all reach the end of the body yields what they
    yield, in order. *)
Lemma for_each_exhausted {A Y} (body : A -> trace Y) (l : list A) :
  Forall (fun a => ended (body a) = Exhausted) l ->
  for_each body l = Trace (flat_map (fun a => yielded (body a)) l) Exhausted.
Proof.
  induction 1 as [|a l Ha _ IH]; [reflexivity|].
  rewrite for_each_cons, Ha, IH. reflexivity.
Qed.

Lemma for_each_ext {A Y} (f g : A -> trace Y) (l : list A) :
  (forall a, f a = g a) -> for_each f l = for_each g l.
Proof.
  intros E. induction l as [|a l IH]; [reflexivity|].
  rewrite !for_each_cons, IH, E. reflexivity.
Qed.

(** The loop of [find_file] over [items], as the source writes it. *)
Lemma for_each_filter {A Y} (keep : A -> bool) (body : A -> trace Y) (l : list A) :
  for_each body (filter keep l) =
  for_each (fun a => if keep a then body a else Trace [] Exhausted) l.
Proof.
  induction l as [|a l IH]; [reflexivity|].
  cbn [filter]. destruct (keep a) eqn:K.
  - rewrite !for_each_cons, K, IH. reflexivity.
  - rewrite for_each_cons, K, IH. cbn. destruct (for_each _ l); reflexivity.
Qed.

(** ** The tree locator *)

Lemma entry_rect' (P : entry -> Prop) :
  P File -> P Other ->
  (forall entries, Forall (fun d => P (snd d)) entries -> P (Dir entries)) ->
  forall e, P e.
Proof.
  intros HF HO HD. fix IH 1. intros [|entries|]; [exact HF| |exact HO].
  apply HD. induction entries as [|d entries IHentries]; constructor.
  - apply IH.
  - exact IHentries.
Qed.

Lemma find_file_items path entries name :
  find_file path (Dir entries) name =
  let items := filter is_item entries in
  match find (fun f => is_file (snd f) && str_eqb (fst f) name) items with
  | Some f => Trace [child path (fst f)] Exhausted
  | None =>
      for_each (fun d => if is_dir (snd d)
                         then find_file (child path (fst d)) (snd d) name
                         else Trace [] Exhausted)
               items
  end.
Proof.
  cbn [find_file]. cbv zeta. destruct (find _ _); [reflexivity|].
  rewrite for_each_filter. apply for_each_ext.
  intros d. destruct (is_item d), (is_dir (snd d)); reflexivity.
Qed.

Lemma str_eqb_eq (a b : str) : str_eqb a b = true <-> a = b.
Proof. unfold str_eqb. destruct (list_eq_dec N.eq_dec a b); intuition congruence. Qed.

Lemma str_eqb_refl (a : str) : str_eqb a a = true.
Proof. apply str_eqb_eq. reflexivity. Qed.

Lemma str_eqb_neq (a b : str) : str_eqb a b = false <-> a <> b.
Proof. unfold str_eqb. destruct (list_eq_dec N.eq_dec a b); intuition congruence. Qed.

(** Below a directory the search does not raise: only the root is
    tested and refused. *)
Lemma find_file_dir_exhausted name e :
  forall path, is_dir e = true -> ended (find_file path e name) = Exhausted.
Proof.
  induction e as [| |entries IH] using entry_rect'; try discriminate.
  intros path _. cbn [find_file]. cbv zeta. destruct (find _ _); [reflexivity|].
  rewrite for_each_exhausted; [reflexivity|].
  rewrite Forall_forall in *. intros d Hd.
  destruct (is_item d && is_dir (snd d)) eqn:K; [|reflexivity].
  apply IH; [exact Hd|]. apply andb_prop in K. tauto.
Qed.

Lemma is_target_spec name f : is_target name f = true <-> f = (name, File).
Proof.
  unfold is_target. destruct f as [n e]. cbn [fst snd]. split.
  - intros H. apply andb_prop in H. destruct H as [He Hn].
    apply str_eqb_eq in Hn. destruct e; try discriminate. congruence.
  - intros H. inversion H. cbn. apply str_eqb_refl.
Qed.

Lemma find_target name entries :
  match find (is_target name) (filter is_item entries) with
  | Some f => f = (name, File) /\ In (name, File) entries
  | None => ~ In (name, File) entries
  end.
Proof.
  destruct (find _ _) as [f|] eqn:F.
  - apply find_some in F. destruct F as [Hin Ht].
    apply is_target_spec in Ht. subst f.
    apply filter_In in Hin. tauto.
  - intros Hin.
    assert (K : is_target name (name, File) = false).
    { apply (find_none _ _ F). apply filter_In. split; [exact Hin|reflexivity]. }
    rewrite (proj2 (is_target_spec name (name, File)) eq_refl) in K. discriminate K.
Qed.

(** C3: a directory that holds a file with the target name yields that
    file and nothing from its subdirectories; a directory that holds none
    yields, in the order of its listing, all that the search finds in each
    of its subdirectories. *)
Theorem find_file_stops_at_first_match path entries name :
  (In (name, File) entries ->
   find_file path (Dir entries) name = Trace [child path name] Exhausted)
  /\ (~ In (name, File) entries ->
      find_file path (Dir entries) name =
      Trace (flat_map
               (fun d => match snd d with
                         | Dir _ => yielded (find_file (child path (fst d)) (snd d) name)
                         | _ => []
                         end)
               entries)
            Exhausted).
Proof.
  pose proof (find_target name entries) as T.
  split; intros H; cbn [find_file]; cbv zeta;
    change (fun f : str * entry => is_file (snd f) && str_eqb (fst f) name)
      with (is_target name);
    destruct (find _ _) as [f|].
  - destruct T as [-> _]. reflexivity.
  - contradiction.
  - tauto.
  - rewrite for_each_exhausted.
    + f_equal. apply flat_map_ext. intros [n [| |]]; reflexivity.
    + apply Forall_forall. intros d _.
      destruct (is_item d && is_dir (snd d)) eqn:K; [|reflexivity].
      apply find_file_dir_exhausted. apply andb_prop in K. tauto.
Qed.

Lemma find_file_stops_at_first_match_witness :
  find_file Sample.root (Dir [(u "metadata.xml", File); (u "sub", Dir [(u "metadata.xml", File)])])
            "metadata.xml"
    = Trace [child Sample.root "metadata.xml"] Exhausted
  /\ find_file Sample.root Sample.tree "metadata.xml"
     = Trace [map u ["/"; "data"; "doc"; "metadata.xml"]] Exhausted.
Proof.
  split.
  - apply (proj1 (find_file_stops_at_first_match Sample.root _ "metadata.xml")).
    left. reflexivity.
  - unfold Sample.tree.
    rewrite (proj2 (find_file_stops_at_first_match Sample.root _ "metadata.xml")).
    + reflexivity.
    + intros [H|[H|[]]]; discriminate H.
Defined.

(** ** The page divisions *)

Lemma first_id_find prefix fptrs ids :
  Forall2 points_to fptrs ids ->
  first_id prefix fptrs = Ok (first_with prefix ids).
Proof.
  induction 1 as [|f i fptrs ids Hf _ IH]; [reflexivity|].
  unfold points_to in Hf. cbn [first_id]. rewrite Hf. cbn [bind].
  unfold first_with in *. cbn [find]. destruct (startswith i prefix); auto.
Qed.

Lemma next_id_find prefix struct ids :
  pointer_list struct ids ->
  next_id prefix struct = Ok (first_with prefix ids).
Proof.
  intros [fptrs [H1 H2]]. unfold next_id. rewrite H1. cbn [bind iter].
  apply first_id_find. exact H2.
Qed.

Lemma first_with_prefix prefix ids i :
  first_with prefix ids = Some i -> startswith i prefix = true /\ In i ids.
Proof. intros H. apply find_some in H. tauto. Qed.

(** An id that was found by a prefix of the source is not empty, so it
    counts as true. *)
Lemma first_with_truthy prefix ids :
  prefix <> [] ->
  truthy (first_with prefix ids) = match first_with prefix ids with Some _ => true | None => false end.
Proof.
  intros Hp. destruct (first_with prefix ids) as [i|] eqn:F; [|reflexivity].
  apply first_with_prefix in F. destruct F as [F _].
  destruct i; [|reflexivity]. destruct prefix; [congruence|discriminate F].
Qed.

(** The record of a division with a list of pointers. *)
Lemma page_record_pointer_list h metadata_root doc paths struct ids :
  pointer_list struct ids ->
  page_record h metadata_root doc paths struct =
  (img_path <- paths_item paths (id_key (first_with "IMG_" ids)) ;;
   order <- getitem struct "@ORDER" ;;
   alto_text <- layer h metadata_root paths (first_with "ALTO_" ids) ;;
   page_xml <- layer h metadata_root paths (first_with "PAGEXML_" ids) ;;
   Ok {| image := path_str h (joinpath h metadata_root img_path);
         doc_id := doc;
         sequence := order;
         alto := alto_text;
         page := match first_with "PAGEXML_" ids with
                 | Some _ => remove_transkribus_metadata page_xml
                 | None => []
                 end |}).
Proof.
  intros P. unfold page_record.
  rewrite !(next_id_find _ P). cbn [bind].
  rewrite !first_with_truthy by discriminate.
  destruct (paths_item paths (id_key _)); [|reflexivity]. cbn [bind].
  destruct (getitem struct _); [|reflexivity]. cbn [bind].
  destruct (first_with "ALTO_" ids) as [ia|]; cbn [layer id_key bind].
  - destruct (paths_item paths (KStr ia)); [|reflexivity]. cbn [bind].
    destruct (read_text h _); [|reflexivity]. cbn [bind].
    destruct (first_with "PAGEXML_" ids) as [ib|]; cbn [layer id_key bind]; [|reflexivity].
    destruct (paths_item paths (KStr ib)); [|reflexivity]. cbn [bind].
    destruct (read_text h _); reflexivity.
  - destruct (first_with "PAGEXML_" ids) as [ib|]; cbn [layer id_key bind]; [|reflexivity].
    destruct (paths_item paths (KStr ib)); [|reflexivity]. cbn [bind].
    destruct (read_text h _); reflexivity.
Qed.

(** C5: the code does not classify the pointers of every page division:
    a division with a single file pointer, here one that names [IMG_1],
    should have the image [IMG_1] and both layers absent, but the search
    for each id raises [TypeError], and so does the record.  The structure
    document is parsed without [force_list], unlike the metadata document,
    and the one pointer is a dictionary whose keys the search runs over;
    with the pointers forced to a list the same division is classified as
    the claim says. *)
Theorem single_image_pointer_is_not_classified h metadata_root doc paths :
  let division := Sample.div_xml "1" ["IMG_1"] in
  (next_id "IMG_" (to_value [] division) = Err TypeError
   /\ next_id "ALTO_" (to_value [] division) = Err TypeError
   /\ next_id "PAGEXML_" (to_value [] division) = Err TypeError
   /\ page_record h metadata_root doc paths (to_value [] division) = Err TypeError)
  /\ (next_id "IMG_" (to_value [u "ns3:fptr"] division) = Ok (Some (u "IMG_1"))
      /\ next_id "ALTO_" (to_value [u "ns3:fptr"] division) = Ok None
      /\ next_id "PAGEXML_" (to_value [u "ns3:fptr"] division) = Ok None).
Proof. repeat split; reflexivity. Qed.

(** X24: in a page division whose pointers are a list, as the parser
    delivers two or more pointers, each of the three ids is the first id
    of the list with the prefix of its class, and [None] when no id has
    the prefix.  With the ids [IMG_1] and [ALTO_2] the image is [IMG_1],
    the raw layer [ALTO_2], the curated layer absent, and the record, when
    the image path, the order and the raw text are there, has the empty
    text as its curated layer. *)
Theorem classification_takes_first_id h metadata_root doc paths struct ids :
  pointer_list struct ids ->
  (next_id "IMG_" struct = Ok (first_with "IMG_" ids)
   /\ next_id "ALTO_" struct = Ok (first_with "ALTO_" ids)
   /\ next_id "PAGEXML_" struct = Ok (first_with "PAGEXML_" ids))
  /\ (ids = [u "IMG_1"; u "ALTO_2"] ->
      next_id "IMG_" struct = Ok (Some (u "IMG_1"))
      /\ next_id "ALTO_" struct = Ok (Some (u "ALTO_2"))
      /\ next_id "PAGEXML_" struct = Ok None
      /\ page_record h metadata_root doc paths struct =
         (img_path <- paths_item paths (KStr "IMG_1") ;;
          order <- getitem struct "@ORDER" ;;
          alto_text <- layer h metadata_root paths (Some (u "ALTO_2")) ;;
          Ok {| image := path_str h (joinpath h metadata_root img_path);
                doc_id := doc;
                sequence := order;
                alto := alto_text;
                page := [] |})).
Proof.
  intros P. split.
  - repeat split; apply next_id_find; exact P.
  - intros ->. repeat split; try (rewrite (next_id_find _ P); reflexivity).
    rewrite (page_record_pointer_list h metadata_root doc paths P).
    change (first_with "IMG_" [u "IMG_1"; u "ALTO_2"]) with (Some (u "IMG_1")).
    change (first_with "ALTO_" [u "IMG_1"; u "ALTO_2"]) with (Some (u "ALTO_2")).
    change (first_with "PAGEXML_" [u "IMG_1"; u "ALTO_2"]) with (@None str).
    cbn [id_key]. destruct (paths_item paths _); [|reflexivity]. cbn [bind].
    destruct (getitem struct _); [|reflexivity]. cbn [bind].
    destruct (layer h metadata_root paths _); reflexivity.
Qed.

Lemma classification_takes_first_id_witness :
  let struct := to_value [] (Sample.div_xml "7" ["IMG_1"; "ALTO_2"]) in
  let paths := [(KStr "IMG_1", u "p 1.jpg"); (KStr "ALTO_2", u "alto/p2.xml")] in
  pointer_list struct [u "IMG_1"; u "ALTO_2"]
  /\ next_id "PAGEXML_" struct = Ok None
  /\ page_record Sample.host (map u ["/"; "data"; "doc"]) 42 paths struct =
     Ok {| image := u "/data/doc/p 1.jpg"; doc_id := 42; sequence := PStr "7";
           alto := u "<alto>2</alto>"; page := [] |}.
Proof.
  intros struct paths.
  assert (P : pointer_list struct [u "IMG_1"; u "ALTO_2"]).
  { eexists. split; [vm_compute; reflexivity|].
    repeat constructor; vm_compute; reflexivity. }
  split; [exact P|].
  destruct (classification_takes_first_id Sample.host (map u ["/"; "data"; "doc"]) 42
              paths P) as [_ H].
  destruct (H eq_refl) as (_ & _ & H3 & H4).
  split; [exact H3|]. rewrite H4. vm_compute. reflexivity.
Defined.

Lemma for_each_app {A Y} (body : A -> trace Y) (l1 l2 : list A) :
  for_each body (l1 ++ l2) = and_then (for_each body l1) (for_each body l2).
Proof.
  induction l1 as [|a l1 IH].
  - cbn. destruct (for_each body l2); reflexivity.
  - cbn [app]. rewrite !for_each_cons, IH. unfold and_then.
    destruct (ended (body a)) eqn:Ea; cbn [ended yielded]; rewrite ?Ea;
      try reflexivity.
    destruct (ended (for_each body l1)) eqn:E; cbn [ended yielded];
      rewrite ?app_assoc, ?E; reflexivity.
Qed.

(** A run of the body that does not reach its end is the last one. *)
Lemma for_each_stops {A Y} (body : A -> trace Y) (l1 l2 : list A) (a : A) :
  ended (body a) <> Exhausted ->
  for_each body (l1 ++ a :: l2) = and_then (for_each body l1) (body a).
Proof.
  intros H. rewrite for_each_app, for_each_cons.
  destruct (ended (body a)); [congruence| |]; reflexivity.
Qed.

Lemma text_keys_no_none paths : text_keys paths -> paths_get KNone paths = None.
Proof.
  induction 1 as [|[k v] paths [s Hs] _ IH]; [reflexivity|].
  cbn in Hs. subst k. exact IH.
Qed.

(** C6: a page without an image id does not always fail with a look-up
    error: when the division has a single file pointer, here one that
    names [ALTO_1], the record raises [TypeError] in the search for the
    image id, before the path mapping is looked at.  The failure is fatal
    all the same.  With the pointers forced to a list the look-up of the
    absent image id raises [KeyError], as the claim says. *)
Theorem page_without_image_raises_type_error h metadata_root doc :
  let division := Sample.div_xml "1" ["ALTO_1"] in
  let paths := [(KStr "ALTO_1", u "alto/p1.xml")] in
  (page_record h metadata_root doc paths (to_value [] division) = Err TypeError
   /\ page_record h metadata_root doc paths (to_value [] division) <> Err KeyError
   /\ pages h metadata_root doc paths [to_value [] division] = Trace [] (Raised TypeError))
  /\ page_record h metadata_root doc paths (to_value [u "ns3:fptr"] division) = Err KeyError.
Proof. repeat split; try reflexivity. discriminate. Qed.

(** X25: in a page division whose pointers are a list, as the parser
    delivers two or more pointers, a page whose image id is absent from
    the list, or is not a key of the path mapping, raises [KeyError]
    instead of giving a record; the loop over the pages ends there, with
    the records of the pages before it and nothing after. *)
Theorem missing_image_raises_key_error h metadata_root doc paths struct ids before after :
  pointer_list struct ids ->
  text_keys paths ->
  (first_with "IMG_" ids = None
   \/ exists i, first_with "IMG_" ids = Some i /\ paths_get (KStr i) paths = None) ->
  page_record h metadata_root doc paths struct = Err KeyError
  /\ pages h metadata_root doc paths (before ++ struct :: after) =
     and_then (pages h metadata_root doc paths before) (Trace [] (Raised KeyError)).
Proof.
  intros P T M.
  assert (R : page_record h metadata_root doc paths struct = Err KeyError).
  { rewrite (page_record_pointer_list h metadata_root doc paths P).
    unfold paths_item.
    destruct M as [-> | [i [-> M]]]; cbn [id_key].
    - rewrite (text_keys_no_none T). reflexivity.
    - rewrite M. reflexivity. }
  split; [exact R|].
  unfold pages. rewrite for_each_stops; rewrite R; cbn; [reflexivity|discriminate].
Qed.

Lemma missing_image_raises_key_error_witness :
  let struct := to_value [] (Sample.div_xml "3" ["ALTO_1"; "PAGEXML_1"]) in
  let paths := [(KStr "ALTO_1", u "alto/p1.xml"); (KStr "PAGEXML_1", u "page/p1.xml")] in
  pages Sample.host (map u ["/"; "data"; "doc"]) 42 paths [struct; struct] =
  Trace [] (Raised KeyError).
Proof.
  intros struct paths.
  assert (P : pointer_list struct [u "ALTO_1"; u "PAGEXML_1"]).
  { eexists. split; [vm_compute; reflexivity|].
    repeat constructor; vm_compute; reflexivity. }
  assert (T : text_keys paths).
  { repeat constructor; eexists; reflexivity. }
  destruct (missing_image_raises_key_error Sample.host (map u ["/"; "data"; "doc"]) 42
              [] [struct] P T (or_introl eq_refl)) as [_ H].
  exact H.
Defined.

Lemma paths_item_error paths k e : paths_item paths k = Err e -> e = KeyError.
Proof. unfold paths_item. destruct (paths_get k paths); congruence. Qed.

Lemma getitem_dict_error d k e : getitem (PDict d) k = Err e -> e = KeyError.
Proof. cbn. destruct (dict_get k d); congruence. Qed.

Lemma pointer_list_order_error struct ids e :
  pointer_list struct ids -> getitem struct "@ORDER" = Err e -> e = KeyError.
Proof.
  intros [fptrs [H _]]. destruct struct; try discriminate H.
  apply getitem_dict_error.
Qed.

(** The claim of C9 fails for the curated layer: the raw layer is read
    before the curated id is looked up.  Here the raw layer of the page is
    mapped to a file that is not there, the curated id is not mapped, and
    what is raised is the error of the read. *)
Lemma unmapped_layer_b_not_always_key_error :
  let struct := to_value [] (Sample.div_xml "1" ["IMG_1"; "ALTO_1"; "PAGEXML_1"]) in
  let paths := [(KStr "IMG_1", u "p 1.jpg"); (KStr "ALTO_1", u "alto/gone.xml")] in
  pointer_list struct [u "IMG_1"; u "ALTO_1"; u "PAGEXML_1"]
  /\ first_with "PAGEXML_" [u "IMG_1"; u "ALTO_1"; u "PAGEXML_1"] = Some (u "PAGEXML_1")
  /\ paths_get (KStr "PAGEXML_1") paths = None
  /\ page_record Sample.host (map u ["/"; "data"; "doc"]) 42 paths struct = Err OSError
  /\ page_record Sample.host (map u ["/"; "data"; "doc"]) 42 paths struct <> Err KeyError.
Proof.
  intros struct paths. split.
  - eexists. split; [vm_compute; reflexivity|].
    repeat constructor; vm_compute; reflexivity.
  - repeat split; try (vm_compute; reflexivity).
    vm_compute. discriminate.
Qed.

(** C9, amended: in a page division whose pointers are a list, as the
    parser delivers two or more pointers, a page whose raw or curated id is
    in the list but not in the path mapping gives no record and raises:
    [KeyError] for the raw layer, and for the curated layer [KeyError]
    unless reading the raw layer fails first, which then raises its own
    error.  A record has the empty text for a layer exactly when the id of
    the layer is absent; otherwise it has what was read from the mapped
    path. *)
Theorem unmapped_layer_raises h metadata_root doc paths struct ids :
  pointer_list struct ids ->
  (forall i, first_with "ALTO_" ids = Some i -> paths_get (KStr i) paths = None ->
     page_record h metadata_root doc paths struct = Err KeyError)
  /\ (forall i, first_with "PAGEXML_" ids = Some i -> paths_get (KStr i) paths = None ->
        page_record h metadata_root doc paths struct = Err KeyError
        \/ exists e, layer h metadata_root paths (first_with "ALTO_" ids) = Err e
                     /\ page_record h metadata_root doc paths struct = Err e)
  /\ (forall r, page_record h metadata_root doc paths struct = Ok r ->
        match first_with "ALTO_" ids with
        | Some i => exists p, paths_get (KStr i) paths = Some p
                              /\ read_text h (joinpath h metadata_root p) = Ok (alto r)
        | None => alto r = []
        end
        /\ match first_with "PAGEXML_" ids with
           | Some i => exists p xml, paths_get (KStr i) paths = Some p
                                     /\ read_text h (joinpath h metadata_root p) = Ok xml
                                     /\ page r = remove_transkribus_metadata xml
           | None => page r = []
           end).
Proof.
  intros P. rewrite (page_record_pointer_list h metadata_root doc paths P).
  destruct (paths_item paths (id_key (first_with "IMG_" ids))) as [img|e] eqn:I;
    cbn [bind].
  2: { apply paths_item_error in I. subst e.
       repeat split; try discriminate; auto. }
  destruct (getitem struct "@ORDER") as [order|e] eqn:O; cbn [bind].
  2: { apply (pointer_list_order_error P) in O. subst e.
       repeat split; try discriminate; auto. }
  repeat split.
  - intros i -> M. cbn [layer]. unfold paths_item. rewrite M. reflexivity.
  - intros i -> M. destruct (layer h metadata_root paths (first_with "ALTO_" ids)) as [t|e];
      cbn [bind layer].
    + left. unfold paths_item. rewrite M. reflexivity.
    + right. exists e. split; reflexivity.
  - destruct (first_with "ALTO_" ids) as [i|]; cbn [layer] in *.
    + unfold paths_item in H. destruct (paths_get (KStr i) paths) as [p|]; [|discriminate H].
      cbn [bind] in H. exists p. split; [reflexivity|].
      destruct (read_text h _) as [t|]; [|discriminate H]. cbn [bind] in H.
      destruct (layer h metadata_root paths _); [|discriminate H]. cbn [bind] in H.
      inversion H. reflexivity.
    + cbn [bind] in H. destruct (layer h metadata_root paths _); [|discriminate H].
      inversion H. reflexivity.
  - destruct (layer h metadata_root paths (first_with "ALTO_" ids)); [|discriminate H].
    cbn [bind] in H.
    destruct (first_with "PAGEXML_" ids) as [i|]; cbn [layer] in *.
    + unfold paths_item in H. destruct (paths_get (KStr i) paths) as [p|]; [|discriminate H].
      cbn [bind] in H. exists p.
      destruct (read_text h _) as [t|]; [|discriminate H]. cbn [bind] in H.
      exists t. inversion H. repeat split.
    + inversion H. reflexivity.
Qed.

Lemma unmapped_layer_raises_witness :
  let struct := to_value [] (Sample.div_xml "1" ["IMG_1"; "ALTO_1"; "PAGEXML_1"]) in
  let paths := [(KStr "IMG_1", u "p 1.jpg"); (KStr "PAGEXML_1", u "page/p1.xml")] in
  page_record Sample.host (map u ["/"; "data"; "doc"]) 42 paths struct = Err KeyError.
Proof.
  intros struct paths.
  assert (P : pointer_list struct [u "IMG_1"; u "ALTO_1"; u "PAGEXML_1"]).
  { eexists. split; [vm_compute; reflexivity|].
    repeat constructor; vm_compute; reflexivity. }
  apply (proj1 (unmapped_layer_raises Sample.host (map u ["/"; "data"; "doc"]) 42 paths P)
           (u "ALTO_1")); reflexivity.
Defined.

(** ** The parser's dictionaries *)

Lemma dict_get_set_same {V} k (v : V) d : dict_get k (dict_set k v d) = Some v.
Proof.
  induction d as [|[k' v'] d IH]; cbn.
  - rewrite str_eqb_refl. reflexivity.
  - destruct (str_eqb k k') eqn:E; cbn; [rewrite str_eqb_refl|rewrite E]; auto.
Qed.

Lemma dict_get_set_other {V} k k' (v : V) d :
  k <> k' -> dict_get k (dict_set k' v d) = dict_get k d.
Proof.
  intros N. apply str_eqb_neq in N.
  induction d as [|[k2 v2] d IH]; cbn.
  - rewrite N. reflexivity.
  - destruct (str_eqb k' k2) eqn:E; cbn.
    + apply str_eqb_eq in E. subst k2. rewrite N. reflexivity.
    + destruct (str_eqb k k2); auto.
Qed.

Lemma push_data_other fl item key data k :
  k <> key -> dict_get k (push_data fl item key data) = dict_get k (entries_of item).
Proof.
  intros N. unfold push_data. fold (entries_of item).
  destruct (dict_get key (entries_of item)) as [[]|];
    try destruct (existsb _ fl); apply dict_get_set_other; exact N.
Qed.

Lemma push_data_first fl item key data :
  dict_get key (entries_of item) = None ->
  dict_get key (push_data fl item key data) =
  Some (if existsb (str_eqb key) fl then PList [data] else data).
Proof.
  intros G. unfold push_data. fold (entries_of item). rewrite G.
  destruct (existsb _ fl); apply dict_get_set_same.
Qed.

Lemma push_children_other fl k children :
  Forall (fun x => tag_of x <> k) children ->
  forall item,
    dict_get k (entries_of (fold_left (push_child fl) children item)) =
    dict_get k (entries_of item).
Proof.
  induction 1 as [|c children Hc _ IH]; intros item; [reflexivity|].
  cbn [fold_left]. rewrite IH. unfold push_child. cbn [entries_of].
  apply push_data_other. congruence.
Qed.

Lemma push_children_sole fl k c children :
  sole k c children ->
  forall item, dict_get k (entries_of item) = None ->
    dict_get k (entries_of (fold_left (push_child fl) children item)) =
    Some (if existsb (str_eqb k) fl then PList [to_value fl c] else to_value fl c).
Proof.
  intros (before & after & -> & <- & F) item G.
  apply Forall_app in F. destruct F as [Fb Fa].
  rewrite fold_left_app. cbn [fold_left].
  rewrite (push_children_other fl Fa). unfold push_child at 2. cbn [entries_of].
  apply push_data_first.
  rewrite (push_children_other fl Fb). exact G.
Qed.

Lemma attr_entries_other k attrs :
  Forall (fun kv => u "@" ++ fst kv <> k) attrs ->
  forall d,
    dict_get k (fold_left (fun d kv => dict_set (u "@" ++ fst kv) (PStr (snd kv)) d) attrs d) =
    dict_get k d.
Proof.
  induction 1 as [|kv attrs Hkv _ IH]; intros d; [reflexivity|].
  cbn [fold_left]. rewrite IH. apply dict_get_set_other. congruence.
Qed.

Lemma to_value_eq fl tag attrs children text :
  to_value fl (Element tag attrs children text) =
  let item :=
    fold_left (push_child fl) children
      (match attr_entries attrs with [] => None | _ => Some (attr_entries attrs) end) in
  match item with
  | Some d =>
      PDict (match strip text with
             | [] => d
             | _ => push_data fl (Some d) "#text" (PStr (strip text))
             end)
  | None => match strip text with [] => PNone | _ => PStr (strip text) end
  end.
Proof. reflexivity. Qed.

Lemma entries_of_attrs attrs :
  entries_of (match attr_entries attrs with [] => None | _ => Some (attr_entries attrs) end)
  = attr_entries attrs.
Proof. destruct (attr_entries attrs); reflexivity. Qed.

(** The entries of an element that a look-up by [k] sees, whatever the
    character data. *)
Lemma to_value_getitem fl tag attrs children text k :
  k <> u "#text" ->
  fold_left (push_child fl) children
    (match attr_entries attrs with [] => None | _ => Some (attr_entries attrs) end) <> None ->
  getitem (to_value fl (Element tag attrs children text)) k =
  match dict_get k (entries_of (fold_left (push_child fl) children
           (match attr_entries attrs with [] => None | _ => Some (attr_entries attrs) end))) with
  | Some x => Ok x
  | None => Err KeyError
  end.
Proof.
  intros N S. rewrite to_value_eq. cbv zeta.
  destruct (fold_left _ _ _) as [d|]; [|congruence]. cbn [getitem entries_of].
  destruct (strip text); [reflexivity|].
  rewrite push_data_other by exact N. reflexivity.
Qed.

Lemma push_children_some fl children item :
  children <> [] \/ item <> None -> fold_left (push_child fl) children item <> None.
Proof.
  revert item. induction children as [|c children IH]; intros item H.
  - cbn. destruct H; congruence.
  - cbn [fold_left]. apply IH. right. discriminate.
Qed.

(** The value of the only child with a tag: wrapped in a list when the
    tag is forced, bare otherwise. *)
Lemma to_value_sole_child fl tag attrs children text k c :
  element_key k -> sole k c children ->
  getitem (to_value fl (Element tag attrs children text)) k =
  Ok (if existsb (str_eqb k) fl then PList [to_value fl c] else to_value fl c).
Proof.
  intros [N A] S. rewrite to_value_getitem; [|exact N|].
  - rewrite (push_children_sole fl S); [reflexivity|].
    rewrite entries_of_attrs. unfold attr_entries. rewrite attr_entries_other; [reflexivity|].
    apply Forall_forall. intros kv _. apply A.
  - apply push_children_some. left. destruct S as (b & a & -> & _).
    destruct b; discriminate.
Qed.

Lemma element_key_tag (k : string) :
  match k with
  | String c _ => negb (Ascii.eqb c "@") && negb (Ascii.eqb c "#")
  | EmptyString => true
  end = true ->
  element_key k.
Proof.
  destruct k as [|c k]; intros H.
  - split; [discriminate|]. intros a E. discriminate E.
  - apply andb_prop in H. destruct H as [H1 H2].
    apply negb_true_iff in H1, H2. apply Ascii.eqb_neq in H1, H2.
    split.
    + intros E. cbn in E. inversion E as [[E1 E2]].
      apply H2. apply (f_equal ascii_of_N) in E1.
      rewrite ascii_N_embedding in E1. exact E1.
    + intros a E. cbn in E. inversion E as [[E1 E2]].
      apply H1. apply (f_equal ascii_of_N) in E1.
      rewrite ascii_N_embedding in E1. symmetry. exact E1.
Qed.



(** ** The sequence field *)

Lemma page_record_sequence h metadata_root doc paths struct r :
  page_record h metadata_root doc paths struct = Ok r ->
  getitem struct "@ORDER" = Ok (sequence r).
Proof.
  unfold page_record. intros H.
  repeat match type of H with
         | bind ?x _ = Ok _ => destruct x; cbn [bind] in H; [|discriminate H]
         end.
  inversion H. reflexivity.
Qed.

Lemma attr_entries_get k v attrs :
  forall d,
    dict_get k (fold_left (fun d kv => dict_set (u "@" ++ fst kv) (PStr (snd kv)) d) attrs d)
    = Some v ->
    (exists a s, In (a, s) attrs /\ k = u "@" ++ a /\ v = PStr s) \/ dict_get k d = Some v.
Proof.
  induction attrs as [|[a s] attrs IH]; intros d H; [right; exact H|].
  cbn [fold_left fst snd] in H. apply IH in H. destruct H as [(a' & s' & Hin & Hk & Hv)|H].
  - left. exists a', s'. split; [right; exact Hin|]. tauto.
  - destruct (list_eq_dec N.eq_dec k (u "@" ++ a)) as [E|E].
    + subst k. rewrite dict_get_set_same in H. inversion H.
      left. exists a, s. split; [left; reflexivity|]. tauto.
    + rewrite dict_get_set_other in H by exact E. right. exact H.
Qed.

(** The claim of C2 fails on the sample export: the two records carry
    the texts [1] and [2], not integers. *)
Lemma sequence_is_not_an_integer :
  let t := dataset_generator_transkribus Sample.host Sample.root Sample.tree [7%Z] in
  map sequence (yielded t) = [PStr "1"; PStr "2"]
  /\ ~ (forall r, In r (yielded t) -> exists z, sequence r = PInt z).
Proof.
  split; [vm_compute; reflexivity|].
  intros H.
  destruct (H {| image := u "/data/doc/p 2.jpg"; doc_id := 42; sequence := PStr "2";
                 alto := u "<alto>2</alto>"; page := [] |}) as [z Hz].
  - vm_compute. right. left. reflexivity.
  - discriminate Hz.
Qed.

(** C2, amended: the sequence field of a record is the value found under
    [@ORDER] in the page division, as it is; for a division that the parser
    produced from an element it is the text of the [ORDER] attribute, which
    the generator does not convert to an integer. *)
Theorem sequence_is_order_text h metadata_root doc paths fl tag attrs children text r :
  Forall (fun c => element_key (tag_of c)) children ->
  page_record h metadata_root doc paths (to_value fl (Element tag attrs children text)) = Ok r ->
  getitem (to_value fl (Element tag attrs children text)) "@ORDER" = Ok (sequence r)
  /\ exists order, In (u "ORDER", order) attrs /\ sequence r = PStr order.
Proof.
  intros K H. apply page_record_sequence in H. split; [exact H|].
  rewrite to_value_eq in H. cbv zeta in H.
  destruct (fold_left _ _ _) as [d|] eqn:F.
  2: { destruct (strip text); discriminate H. }
  assert (G : dict_get (u "@ORDER") d = Some (sequence r)).
  { cbn [getitem] in H. destruct (strip text).
    - destruct (dict_get _ d); congruence.
    - rewrite push_data_other in H by discriminate. cbn [entries_of] in H.
      destruct (dict_get _ d); congruence. }
  assert (E : d = entries_of (fold_left (push_child fl) children
                 (match attr_entries attrs with [] => None | _ => Some (attr_entries attrs) end)))
    by (rewrite F; reflexivity).
  rewrite E, push_children_other, entries_of_attrs in G.
  - apply attr_entries_get in G. destruct G as [(a & s & Hin & Hk & Hv)|G]; [|discriminate G].
    change (u "@ORDER") with (u "@" ++ u "ORDER") in Hk. apply app_inv_head in Hk. subst a.
    exists s. tauto.
  - apply Forall_forall. intros c Hc. rewrite Forall_forall in K.
    destruct (K c Hc) as [_ A]. intros E'. apply (A (u "ORDER")). symmetry. exact E'.
Qed.

Lemma sequence_is_order_text_witness :
  exists order, In (u "ORDER", order) [(u "ORDER", u "2")] /\ PStr "2" = PStr order.
Proof.
  pose (paths := [(KStr "IMG_2", u "p 2.jpg"); (KStr "ALTO_2", u "alto/p2.xml")]).
  pose (r := {| image := u "/data/doc/p 2.jpg"; doc_id := 42%Z; sequence := PStr "2";
                alto := u "<alto>2</alto>"; page := [] |}).
  apply (@sequence_is_order_text Sample.host (map u ["/"; "data"; "doc"]) 42 paths []
           (u "ns3:div") [(u "ORDER", u "2")]
           (map Sample.fptr_xml ["IMG_2"; "ALTO_2"]) (u "") r).
  - repeat constructor; try discriminate; intros a E; discriminate E.
  - vm_compute. reflexivity.
Defined.

(** ** The collection filter *)

Lemma filter_miss_true collections ids :
  collections <> [] ->
  (forall c, In c collections -> ~ In c ids) ->
  filter_miss collections ids = true.
Proof.
  intros N D. unfold filter_miss. destruct collections as [|c0 cs]; [congruence|].
  apply negb_true_iff. apply not_true_is_false. intros E.
  apply existsb_exists in E. destruct E as (c & Hc & E).
  apply existsb_exists in E. destruct E as (d & Hd & E).
  apply Z.eqb_eq in E. subst d. exact (D c Hc Hd).
Qed.

Lemma and_then_returned {Y} (t : trace Y) :
  yielded (and_then t (Trace [] Returned)) = yielded t
  /\ ended (and_then t (Trace [] Returned)) <> Exhausted.
Proof.
  unfold and_then. destruct (ended t) eqn:E; cbn; rewrite ?app_nil_r, ?E;
    split; congruence.
Qed.

(** C1: when the filter is not empty and shares no id with the
    collections of a bundle, the bundle yields nothing and the generator
    returns there: the run is the run over the bundles located before it,
    whatever is located after it.  If the bundle is the first one, nothing
    is yielded at all. *)
Theorem filter_miss_ends_the_run h root tree collections before b after metadata ids :
  yielded (find_file root tree "metadata.xml") = before ++ b :: after ->
  read_metadata h b = Ok metadata ->
  doc_collections metadata = Ok ids ->
  collections <> [] ->
  (forall c, In c collections -> ~ In c ids) ->
  bundle h collections b = Trace [] Returned
  /\ dataset_generator_transkribus h root tree collections =
     and_then (for_each (bundle h collections) before) (Trace [] Returned)
  /\ (before = [] -> yielded (dataset_generator_transkribus h root tree collections) = []).
Proof.
  intros F M C N D.
  assert (B : bundle h collections b = Trace [] Returned).
  { unfold bundle. rewrite M. cbn [try]. rewrite C. cbn [try].
    rewrite (@filter_miss_true collections ids N D). reflexivity. }
  assert (R : dataset_generator_transkribus h root tree collections =
              and_then (for_each (bundle h collections) before) (Trace [] Returned)).
  { unfold dataset_generator_transkribus, for_gen. rewrite F.
    rewrite for_each_stops by (rewrite B; discriminate). rewrite B.
    destruct (and_then_returned (for_each (bundle h collections) before)) as [_ E].
    destruct (ended (and_then _ _)); [congruence| |]; reflexivity. }
  repeat split; [exact B|exact R|].
  intros ->. rewrite R. reflexivity.
Qed.

Lemma filter_miss_ends_the_run_witness :
  dataset_generator_transkribus Sample.host Sample.root Sample.tree [9%Z] = Trace [] Returned.
Proof.
  destruct (@filter_miss_ends_the_run Sample.host Sample.root Sample.tree [9%Z] []
              (map u ["/"; "data"; "doc"; "metadata.xml"]) []
              (document (map u ["colList"]) Sample.metadata_xml) [7%Z]) as (_ & R & _).
  - reflexivity.
  - reflexivity.
  - reflexivity.
  - discriminate.
  - intros c [<-|[]] [E|[]]. discriminate E.
  - exact R.
Defined.

(** ** The path mapping *)

Lemma key_eqb_eq a b : key_eqb a b = true <-> a = b.
Proof.
  destruct a, b; cbn; rewrite ?Z.eqb_eq, ?str_eqb_eq; split; intros H;
    try discriminate; try congruence; reflexivity.
Qed.

Lemma key_eqb_refl a : key_eqb a a = true.
Proof. apply key_eqb_eq. reflexivity. Qed.

Lemma paths_get_set_same k v paths : paths_get k (paths_set k v paths) = Some v.
Proof.
  induction paths as [|[k' v'] paths IH]; cbn.
  - rewrite key_eqb_refl. reflexivity.
  - destruct (key_eqb k k') eqn:E; cbn; [rewrite key_eqb_refl|rewrite E]; auto.
Qed.

Lemma paths_get_set_other k k' v paths :
  k <> k' -> paths_get k (paths_set k' v paths) = paths_get k paths.
Proof.
  intros N. assert (F : key_eqb k k' = false).
  { apply not_true_is_false. rewrite key_eqb_eq. exact N. }
  induction paths as [|[k2 v2] paths IH]; cbn.
  - rewrite F. reflexivity.
  - destruct (key_eqb k' k2) eqn:E; cbn.
    + apply key_eqb_eq in E. subst k2. rewrite F. reflexivity.
    + destruct (key_eqb k k2); auto.
Qed.

Lemma paths_set_text_keys s v paths : text_keys paths -> text_keys (paths_set (KStr s) v paths).
Proof.
  unfold text_keys. induction 1 as [|[k' v'] paths Hk Hp IH]; cbn [paths_set].
  - constructor; [eexists; reflexivity|constructor].
  - destruct (key_eqb (KStr s) k'); constructor; auto. eexists; reflexivity.
Qed.

Lemma store_files files entries :
  Forall2 file_entry files entries ->
  forall paths, foldM store_file files paths = Ok (fold_left store_entry entries paths).
Proof.
  induction 1 as [|f e files entries [H1 H2] _ IH]; intros paths; [reflexivity|].
  cbn [foldM fold_left]. unfold store_file at 1. rewrite H1, H2. cbn [bind unquote hash].
  apply IH.
Qed.

Lemma store_groups groups filess :
  Forall2 file_group groups filess ->
  forall entries paths,
    Forall2 file_entry (List.concat filess) entries ->
    foldM store_group groups paths = Ok (fold_left store_entry entries paths).
Proof.
  induction 1 as [|g fs groups filess Hg _ IH]; intros entries paths E.
  - inversion E. reflexivity.
  - cbn [List.concat] in E. apply Forall2_app_inv_l in E.
    destruct E as (e1 & e2 & E1 & E2 & ->).
    cbn [foldM]. unfold store_group at 1. rewrite Hg. cbn [bind iter].
    rewrite (store_files E1). cbn [bind]. rewrite fold_left_app. apply IH. exact E2.
Qed.

Lemma store_entries_text_keys entries :
  forall paths, text_keys paths -> text_keys (fold_left store_entry entries paths).
Proof.
  induction entries as [|e entries IH]; intros paths T; [exact T|].
  cbn [fold_left]. apply IH. apply paths_set_text_keys. exact T.
Qed.

Lemma store_entries_other id entries :
  ~ In id (map fst entries) ->
  forall paths,
    paths_get (KStr id) (fold_left store_entry entries paths) = paths_get (KStr id) paths.
Proof.
  induction entries as [|e entries IH]; intros N paths; [reflexivity|].
  cbn [fold_left]. rewrite IH by (intros H; apply N; right; exact H).
  apply paths_get_set_other. intros E. apply N. left. congruence.
Qed.

(** The path mapping of a file section whose groups and entries are
    lists: every entry is stored under its id, a later entry with the same
    id replacing an earlier one. *)
Lemma file_paths_store mets groups filess entries :
  file_section mets groups ->
  Forall2 file_group groups filess ->
  Forall2 file_entry (List.concat filess) entries ->
  exists paths,
    file_paths mets = Ok paths
    /\ text_keys paths
    /\ forall before id href after,
         entries = before ++ (id, href) :: after ->
         ~ In id (map fst after) ->
         paths_get (KStr id) paths = Some (unquote_str href).
Proof.
  intros S G E.
  exists (fold_left store_entry entries []). split; [|split].
  - unfold file_paths. unfold file_section in S. rewrite S. cbn [bind iter].
    apply (store_groups G). exact E.
  - apply store_entries_text_keys. constructor.
  - intros before id href after -> N.
    rewrite fold_left_app. cbn [fold_left].
    rewrite (@store_entries_other id after N). apply paths_get_set_same.
Qed.

(** C7: the path mapping does not hold the decoded reference of every
    file entry: in the structure document of a one-page export each file
    group has a single file entry, the loop over the entries runs over the
    keys of that entry, and building the mapping raises [TypeError]; the
    reference [a%20b.xml] of the image is never stored.  The decoding
    itself is as the claim says, and in the sample export, with two or
    more entries in each group, the decoded reference is stored. *)
Theorem single_file_entry_is_not_stored :
  file_paths (document [] OnePage.mets_xml) = Err TypeError
  /\ unquote (PStr "a%20b.xml") = Ok (u "a b.xml")
  /\ exists paths,
       file_paths (document [] Sample.mets_xml) = Ok paths
       /\ paths_get (KStr "IMG_1") paths = Some (u "p 1.jpg").
Proof.
  split; [reflexivity|]. split; [reflexivity|].
  eexists. split; reflexivity.
Qed.

(** ** The pattern *)

Lemma strip_prefix_spec l s r : strip_prefix l s = Some r <-> s = l ++ r.
Proof.
  revert s. induction l as [|a l IH]; intros s; cbn.
  - split; congruence.
  - destruct s as [|b s]; [split; discriminate|].
    destruct (N.eqb_spec a b) as [->|Hn].
    + rewrite IH. split; congruence.
    + split; [discriminate|]. intros E. inversion E. congruence.
Qed.

Lemma strip_prefix_app l r : strip_prefix l (l ++ r) = Some r.
Proof. apply strip_prefix_spec. reflexivity. Qed.

Lemma occursb_spec l a : occursb l a = false -> ~ occurs l a.
Proof.
  induction a as [|c a IH]; cbn [occursb]; intros H [x [y E]].
  - destruct (strip_prefix l []) eqn:S; [discriminate|].
    destruct x; [|discriminate E]. cbn in E.
    rewrite E, strip_prefix_app in S. discriminate S.
  - destruct (strip_prefix l (c :: a)) eqn:S; [discriminate|].
    destruct x as [|c' x].
    + cbn in E. rewrite E, strip_prefix_app in S. discriminate S.
    + inversion E. apply (IH H). exists x, y. assumption.
Qed.

(** A starred class in front of something that cannot start with a code
    point of the class: giving code points back never helps. *)
Lemma star_greedy class k s :
  (forall c t, class c = true -> k (c :: t) = None) ->
  star class s k = k (drop_while class s).
Proof.
  intros K. induction s as [|c s IH]; [reflexivity|].
  cbn [star drop_while]. destruct (class c) eqn:C; [|reflexivity].
  rewrite IH. destruct (k (drop_while class s)) eqn:E; [reflexivity|].
  apply K. exact C.
Qed.

(** A starred class in front of something that matches behind the longest
    run. *)
Lemma star_first class k s r :
  k (drop_while class s) = Some r -> star class s k = Some r.
Proof.
  intros K. induction s as [|c s IH]; [exact K|].
  cbn [star drop_while] in *. destruct (class c); [|exact K].
  rewrite (IH K). reflexivity.
Qed.

Lemma drop_while_app class w s :
  Forall (fun c => class c = true) w -> drop_while class (w ++ s) = drop_while class s.
Proof.
  induction 1 as [|c w Hc _ IH]; [reflexivity|]. cbn. rewrite Hc. exact IH.
Qed.

Lemma drop_while_suffix class s : exists x, s = x ++ drop_while class s.
Proof.
  induction s as [|c s [x IH]]; [exists []; reflexivity|].
  cbn. destruct (class c).
  - exists (c :: x). cbn. congruence.
  - exists []. reflexivity.
Qed.

Lemma drop_while_length class s : (List.length (drop_while class s) <= List.length s)%nat.
Proof.
  destruct (drop_while_suffix class s) as [x E]. rewrite E at 2.
  rewrite length_app. lia.
Qed.

Lemma strip_prefix_head a l c t : a <> c -> strip_prefix (a :: l) (c :: t) = None.
Proof. intros H. cbn. apply N.eqb_neq in H. rewrite H. reflexivity. Qed.

Lemma not_char_true (x : ascii) c :
  c <> N_of_ascii x -> not_char (String x EmptyString) c = true.
Proof.
  intros H. unfold not_char. apply negb_true_iff. apply str_eqb_neq.
  cbn. congruence.
Qed.

Lemma not_char_false (x : ascii) : not_char (String x EmptyString) (N_of_ascii x) = false.
Proof. unfold not_char. apply negb_false_iff. apply str_eqb_refl. Qed.

Lemma not_char_neq (x : ascii) c :
  not_char (String x EmptyString) c = true -> N_of_ascii x <> c.
Proof.
  intros H E. subst c. rewrite not_char_false in H. discriminate H.
Qed.

(** The pattern at the head of [s]: only after the longest run of white
    space is the tag looked for. *)
Lemma match_at_pattern s :
  match_at transkribus_metadata_tag_pattern s =
  match strip_prefix "<TranskribusMetadata" (drop_while isspace s) with
  | Some s' =>
      rmatch (Seq (Star (not_char ">"))
             (Seq (Opt (Lit "/"))
             (Seq (Lit ">")
                  (Opt (Seq (Star (not_char "<")) (Lit "</TranskribusMetadata>"))))))
             s' Some
  | None => None
  end.
Proof.
  unfold match_at, transkribus_metadata_tag_pattern.
  cbn [rmatch]. rewrite star_greedy; [reflexivity|].
  intros c t C. change (u "<TranskribusMetadata") with (60%N :: u "TranskribusMetadata").
  rewrite strip_prefix_head; [reflexivity|].
  intros <-. discriminate C.
Qed.

(** The optional group at the head of [b]. *)
Lemma match_close b :
  rmatch (Opt (Seq (Star (not_char "<")) (Lit "</TranskribusMetadata>"))) b Some
  = Some (after_close b).
Proof.
  cbn [rmatch]. rewrite star_greedy.
  - unfold after_close. destruct (strip_prefix _ _); reflexivity.
  - intros c t C. change (u "</TranskribusMetadata>") with (60%N :: u "/TranskribusMetadata>").
    rewrite strip_prefix_head; [reflexivity|]. apply (@not_char_neq "<"%char c C).
Qed.

(** The pattern matches white space followed by a tag, up to the end of
    the optional group. *)
Lemma match_tag w attrs b :
  Forall (fun c => isspace c = true) w ->
  ~ In (N_of_ascii ">") attrs ->
  match_at transkribus_metadata_tag_pattern
    (w ++ u "<TranskribusMetadata" ++ attrs ++ u ">" ++ b)
  = Some (after_close b).
Proof.
  intros W A. rewrite match_at_pattern, (drop_while_app _ _ W).
  change (drop_while isspace (u "<TranskribusMetadata" ++ attrs ++ u ">" ++ b))
    with (u "<TranskribusMetadata" ++ attrs ++ u ">" ++ b).
  rewrite strip_prefix_app. cbn [rmatch]. apply star_first.
  rewrite drop_while_app.
  - change (drop_while (not_char ">") (u ">" ++ b)) with (u ">" ++ b).
    change (strip_prefix (u "/") (u ">" ++ b)) with (@None str).
    change (strip_prefix (u ">") (u ">" ++ b)) with (Some b).
    apply (match_close b).
  - apply Forall_forall. intros c Hc. apply (@not_char_true ">"%char).
    intros ->. exact (A Hc).
Qed.

Lemma after_close_length b : (List.length (after_close b) <= List.length b)%nat.
Proof.
  unfold after_close. destruct (strip_prefix _ _) as [r|] eqn:S; [|lia].
  apply strip_prefix_spec in S. pose proof (drop_while_length (not_char "<") b) as L.
  rewrite S, length_app in L. lia.
Qed.

(** *** Substitution *)

Lemma sub_from_fuel r n :
  forall s m, (List.length s <= n)%nat -> (List.length s <= m)%nat ->
    sub_from r n s = sub_from r m s.
Proof.
  induction n as [|n IH]; intros s m Hn Hm.
  - destruct s; [|cbn in Hn; lia]. destruct m; reflexivity.
  - destruct m as [|m].
    + destruct s; [reflexivity|cbn in Hm; lia].
    + cbn [sub_from]. destruct s as [|c s]; [reflexivity|].
      cbn [List.length] in *.
      destruct (match_at r (c :: s)) as [rest|].
      * destruct (Nat.ltb_spec (List.length rest) (S (List.length s))).
        -- apply IH; lia.
        -- f_equal. apply IH; lia.
      * f_equal. apply IH; lia.
Qed.

Lemma sub_no_match r c s : match_at r (c :: s) = None -> sub r (c :: s) = c :: sub r s.
Proof. intros H. unfold sub. cbn [List.length sub_from]. rewrite H. reflexivity. Qed.

Lemma sub_match r s rest :
  match_at r s = Some rest -> (List.length rest < List.length s)%nat ->
  sub r s = sub r rest.
Proof.
  intros H L. unfold sub. destruct s as [|c s]; [cbn in L; lia|].
  cbn [List.length sub_from]. rewrite H.
  cbn [List.length] in L.
  destruct (Nat.ltb_spec (List.length rest) (S (List.length s))) as [_|G]; [|lia].
  apply sub_from_fuel; lia.
Qed.

(** *** White space in front of the tag *)

Lemma occurs_suffix l x a : ~ occurs l (x ++ a) -> ~ occurs l a.
Proof.
  intros H [y [z E]]. apply H. exists (x ++ y), z. rewrite E, app_assoc. reflexivity.
Qed.

Lemma last_cons_text (c : N) a :
  isspace (last (c :: a) 0%N) = false -> isspace (last a 0%N) = false.
Proof. destruct a; [reflexivity|]. cbn [last]. auto. Qed.

(** Text that ends in something else than white space stops the run of
    white space before its end. *)
Lemma drop_while_text a x :
  a <> [] -> isspace (last a 0%N) = false ->
  drop_while isspace (a ++ x) = drop_while isspace a ++ x
  /\ drop_while isspace a <> [].
Proof.
  induction a as [|c a IH]; [congruence|]. intros _ L.
  cbn [drop_while app]. destruct (isspace c) eqn:C.
  - destruct a as [|c' a].
    + cbn in L. congruence.
    + apply IH; [discriminate|]. exact (last_cons_text _ _ L).
  - split; [reflexivity|discriminate].
Qed.

(** The code points of the tag behind its first are neither white space
    nor [<]. *)
Lemma tag_tail_text h :
  In h (u "TranskribusMetadata") -> isspace h = false /\ h <> 60%N.
Proof.
  intros H.
  assert (F : forallb (fun h => negb (isspace h) && negb (h =? 60)%N)
                      (u "TranskribusMetadata") = true) by reflexivity.
  rewrite forallb_forall in F. specialize (F h H).
  apply andb_prop in F. destruct F as [F1 F2].
  apply negb_true_iff in F1, F2. apply N.eqb_neq in F2. tauto.
Qed.

(** No match starts inside text that the tag does not occur in. *)
Lemma no_match_inside a w y :
  a <> [] ->
  ~ occurs "<TranskribusMetadata" a ->
  isspace (last a 0%N) = false ->
  Forall (fun c => isspace c = true) w ->
  match_at transkribus_metadata_tag_pattern (a ++ w ++ u "<TranskribusMetadata" ++ y) = None.
Proof.
  intros Na O L W. rewrite match_at_pattern.
  destruct (drop_while_text (w ++ u "<TranskribusMetadata" ++ y) Na L) as [-> D].
  destruct (drop_while_suffix isspace a) as [x E].
  assert (O' : ~ occurs "<TranskribusMetadata" (drop_while isspace a)).
  { apply (occurs_suffix x). rewrite <- E. exact O. }
  destruct (strip_prefix _ _) as [r|] eqn:S; [exfalso|reflexivity].
  apply strip_prefix_spec in S. apply app_eq_app in S.
  destruct S as [l [[S1 S2]|[S1 S2]]].
  - apply O'. exists [], l. exact S1.
  - destruct l as [|h l].
    + apply O'. exists [], []. rewrite app_nil_r in S1. rewrite app_nil_r. symmetry.
      exact S1.
    + destruct (drop_while isspace a) as [|c2 a2]; [congruence|].
      change (u "<TranskribusMetadata") with (60%N :: u "TranskribusMetadata") in S1.
      inversion S1 as [[Hc Ht]].
      assert (Hh : In h (a2 ++ h :: l)) by (apply in_or_app; right; left; reflexivity).
      rewrite <- Ht in Hh. apply tag_tail_text in Hh. destruct Hh as [H1 H2].
      destruct W as [|s0 w Hs0 _]; cbn in S2; inversion S2; congruence.
Qed.

(** C10: in text that has, behind a part [a] without the tag, a run [w]
    of white space and then the tag (its name, attributes without [>], and
    [>]), the run is removed with the tag: [a] is followed in the output
    by what the function makes of the rest.  The run is the whole white
    space in front of the tag: [a] is empty or ends in something else. *)
Theorem whitespace_before_tag_is_removed a w attrs b :
  ~ occurs "<TranskribusMetadata" a ->
  isspace (last a 0%N) = false ->
  Forall (fun c => isspace c = true) w ->
  ~ In (N_of_ascii ">") attrs ->
  remove_transkribus_metadata (a ++ w ++ u "<TranskribusMetadata" ++ attrs ++ u ">" ++ b)
  = a ++ remove_transkribus_metadata (after_close b).
Proof.
  intros O L W A. unfold remove_transkribus_metadata.
  induction a as [|c a IH].
  - cbn [app]. apply sub_match; [apply match_tag; assumption|].
    pose proof (after_close_length b) as Hb.
    rewrite !length_app. cbn [List.length u]. lia.
  - cbn [app]. rewrite sub_no_match.
    + f_equal. apply IH.
      * apply (occurs_suffix [c]). exact O.
      * exact (last_cons_text _ _ L).
    + apply (@no_match_inside (c :: a) w (attrs ++ u ">" ++ b)); try assumption.
      discriminate.
Qed.

Lemma whitespace_before_tag_is_removed_witness :
  remove_transkribus_metadata
    (u "<p>hello" ++ [32; 10; 9]%N ++ u "<TranskribusMetadata" ++ u " attr=x/" ++ u ">"
     ++ u "world</p>")
  = u "<p>hello" ++ remove_transkribus_metadata (after_close (u "world</p>")).
Proof.
  apply whitespace_before_tag_is_removed.
  - apply occursb_spec. reflexivity.
  - reflexivity.
  - repeat constructor.
  - cbn. intros H. repeat (destruct H as [H|H]; [discriminate H|]). exact H.
Defined.

(** * Further properties *)

(** ** Substitution only deletes *)

Lemma subseq_refl s : subseq s s.
Proof. induction s; constructor; assumption. Qed.

Lemma subseq_app_drop x a b : subseq a b -> subseq a (x ++ b).
Proof. intros H. induction x; [exact H|]. cbn. constructor. exact IHx. Qed.

Lemma subseq_length a b : subseq a b -> (List.length a <= List.length b)%nat.
Proof. induction 1; cbn; lia. Qed.

(** What is behind a match is a tail of the text, if what is behind the
    continuation is. *)
Lemma star_tail class k :
  (forall t rest, k t = Some rest -> exists x, t = x ++ rest) ->
  forall s rest, star class s k = Some rest -> exists x, s = x ++ rest.
Proof.
  intros K. induction s as [|c s IH]; intros rest H; [exact (K _ _ H)|].
  cbn [star] in H. destruct (class c); [|exact (K _ _ H)].
  destruct (star class s k) as [r|] eqn:E; [|exact (K _ _ H)].
  inversion H. subst r. destruct (IH _ eq_refl) as [x ->]. exists (c :: x). reflexivity.
Qed.

Lemma rmatch_tail r :
  forall k, (forall t rest, k t = Some rest -> exists x, t = x ++ rest) ->
  forall s rest, rmatch r s k = Some rest -> exists x, s = x ++ rest.
Proof.
  induction r as [l|class|r IH|r1 IH1 r2 IH2]; intros k K s rest H; cbn [rmatch] in H.
  - destruct (strip_prefix l s) as [s'|] eqn:S; [|discriminate H].
    apply strip_prefix_spec in S. destruct (K _ _ H) as [x ->].
    exists (l ++ x). rewrite S, app_assoc. reflexivity.
  - eapply star_tail; eassumption.
  - destruct (rmatch r s k) as [r'|] eqn:E; [|exact (K _ _ H)].
    inversion H. subst r'. eapply IH; eassumption.
  - eapply (IH1 (fun s' => rmatch r2 s' k)); [|exact H].
    intros t rest' H'. eapply IH2; eassumption.
Qed.

Lemma match_at_tail r s rest : match_at r s = Some rest -> exists x, s = x ++ rest.
Proof.
  apply rmatch_tail. intros t rest' H. inversion H. exists []. reflexivity.
Qed.

Lemma sub_from_subseq r n : forall s, subseq (sub_from r n s) s.
Proof.
  induction n as [|n IH]; intros s; [apply subseq_refl|].
  cbn [sub_from]. destruct s as [|c s]; [constructor|].
  destruct (match_at r (c :: s)) as [rest|] eqn:M.
  - destruct (Nat.ltb_spec (List.length rest) (List.length (c :: s))).
    + destruct (@match_at_tail r (c :: s) rest M) as [x E]. rewrite E.
      apply subseq_app_drop. apply IH.
    + constructor. apply IH.
  - constructor. apply IH.
Qed.

(** X1: the stripping only deletes: its result is the text with some
    code points left out, in the same order, and so never longer. *)
Theorem remove_transkribus_metadata_only_deletes xml :
  subseq (remove_transkribus_metadata xml) xml
  /\ (List.length (remove_transkribus_metadata xml) <= List.length xml)%nat.
Proof.
  assert (H : subseq (remove_transkribus_metadata xml) xml) by apply sub_from_subseq.
  split; [exact H|]. apply subseq_length. exact H.
Qed.

(** ** Text that the stripping leaves alone *)

Lemma sub_nil r : sub r [] = [].
Proof. reflexivity. Qed.

(** Text in which no match starts is kept. *)
Lemma sub_keeps r a :
  forall s,
    (forall x t, a = x ++ t -> t <> [] -> match_at r (t ++ s) = None) ->
    sub r (a ++ s) = a ++ sub r s.
Proof.
  induction a as [|c a IH]; intros s H; [reflexivity|].
  cbn [app]. rewrite sub_no_match.
  - f_equal. apply IH. intros x t E Ht. apply (H (c :: x)); [|exact Ht].
    cbn. congruence.
  - apply (H [] (c :: a)); [reflexivity|discriminate].
Qed.

Lemma no_tag_no_match t :
  ~ occurs "<TranskribusMetadata" t ->
  match_at transkribus_metadata_tag_pattern t = None.
Proof.
  intros O. rewrite match_at_pattern.
  destruct (strip_prefix _ _) as [r|] eqn:S; [exfalso|reflexivity].
  apply strip_prefix_spec in S. destruct (drop_while_suffix isspace t) as [x E].
  apply O. exists x, r. rewrite <- S. exact E.
Qed.

(** X2: a text in which [<TranskribusMetadata] does not occur is returned
    as it is. *)
Theorem remove_transkribus_metadata_without_tag xml :
  ~ occurs "<TranskribusMetadata" xml ->
  remove_transkribus_metadata xml = xml.
Proof.
  intros O. unfold remove_transkribus_metadata.
  rewrite <- (app_nil_r xml) at 1. rewrite sub_keeps, sub_nil, app_nil_r; [reflexivity|].
  intros x t E _. rewrite app_nil_r. apply no_tag_no_match.
  apply (occurs_suffix x). rewrite <- E. exact O.
Qed.

Lemma remove_transkribus_metadata_without_tag_witness :
  remove_transkribus_metadata (u "<Page><Metadata> <Transkribus/></Metadata></Page>")
  = u "<Page><Metadata> <Transkribus/></Metadata></Page>".
Proof.
  apply remove_transkribus_metadata_without_tag. apply occursb_spec. reflexivity.
Defined.

(** A starred class in front of something that matches nowhere in the
    text. *)
Lemma star_none class k s :
  (forall x t, s = x ++ t -> k t = None) -> star class s k = None.
Proof.
  induction s as [|c s IH]; intros K.
  - apply (K [] []). reflexivity.
  - cbn [star]. rewrite IH.
    + destruct (class c); apply (K [] (c :: s)); reflexivity.
    + intros x t E. apply (K (c :: x)). cbn. congruence.
Qed.

Lemma strip_prefix_absent (c : N) (s : str) : ~ In c s -> strip_prefix [c] s = None.
Proof.
  intros H. destruct (strip_prefix [c] s) as [r|] eqn:S; [|reflexivity].
  apply strip_prefix_spec in S. exfalso. apply H. rewrite S. left. reflexivity.
Qed.

Lemma unclosed_no_match t :
  ~ In (N_of_ascii ">") t ->
  match_at transkribus_metadata_tag_pattern t = None.
Proof.
  intros G. rewrite match_at_pattern.
  destruct (strip_prefix _ _) as [s'|] eqn:S; [|reflexivity].
  apply strip_prefix_spec in S. destruct (drop_while_suffix isspace t) as [x0 E0].
  assert (G' : ~ In (N_of_ascii ">") s').
  { intros H. apply G. rewrite E0. apply in_or_app. right. rewrite S.
    apply in_or_app. right. exact H. }
  cbn [rmatch]. apply star_none. intros x t' E.
  assert (Gt : ~ In (N_of_ascii ">") t').
  { intros H. apply G'. rewrite E. apply in_or_app. right. exact H. }
  change (u ">") with [N_of_ascii ">"].
  rewrite (@strip_prefix_absent _ t' Gt).
  destruct (strip_prefix (u "/") t') as [t''|] eqn:S'; [|reflexivity].
  apply strip_prefix_spec in S'. rewrite strip_prefix_absent; [reflexivity|].
  intros H. apply Gt. rewrite S'. right. exact H.
Qed.

(** X3: a tag that is not closed is not removed: a text that holds no
    [>] is returned as it is. *)
Theorem remove_transkribus_metadata_unclosed xml :
  ~ In (N_of_ascii ">") xml ->
  remove_transkribus_metadata xml = xml.
Proof.
  intros G. unfold remove_transkribus_metadata.
  rewrite <- (app_nil_r xml) at 1. rewrite sub_keeps, sub_nil, app_nil_r; [reflexivity|].
  intros x t E _. rewrite app_nil_r. apply unclosed_no_match.
  intros H. apply G. rewrite E. apply in_or_app. right. exact H.
Qed.

Lemma remove_transkribus_metadata_unclosed_witness :
  remove_transkribus_metadata (u "line 1 <TranskribusMetadata docId=1 /")
  = u "line 1 <TranskribusMetadata docId=1 /".
Proof.
  apply remove_transkribus_metadata_unclosed.
  cbn. intros H. repeat (destruct H as [H|H]; [discriminate H|]). exact H.
Defined.

(** ** The two forms of the element *)

Lemma last_app_text (x t : str) d : t <> [] -> last (x ++ t) d = last t d.
Proof.
  intros Ht. induction x as [|c x IH]; [reflexivity|].
  cbn [app last]. destruct (x ++ t) eqn:E; [|exact IH].
  apply app_eq_nil in E. tauto.
Qed.

(** The search passes text without the tag, and removes the white space
    and the tag behind it. *)
Lemma sub_tag a w attrs b :
  ~ occurs "<TranskribusMetadata" a ->
  isspace (last a 0%N) = false ->
  Forall (fun c => isspace c = true) w ->
  ~ In (N_of_ascii ">") attrs ->
  sub transkribus_metadata_tag_pattern
      (a ++ w ++ u "<TranskribusMetadata" ++ attrs ++ u ">" ++ b)
  = a ++ sub transkribus_metadata_tag_pattern (after_close b).
Proof.
  intros O L W A. rewrite sub_keeps.
  - f_equal. apply sub_match; [apply match_tag; assumption|].
    pose proof (after_close_length b) as Hb.
    rewrite !length_app. cbn [List.length u]. lia.
  - intros x t E Ht. apply no_match_inside; try assumption.
    + apply (occurs_suffix x). rewrite <- E. exact O.
    + rewrite E, last_app_text in L by exact Ht. exact L.
Qed.

Lemma drop_while_stops class (junk : str) c s :
  Forall (fun x => class x = true) junk -> class c = false ->
  drop_while class (junk ++ c :: s) = c :: s.
Proof.
  intros J C. rewrite drop_while_app by exact J. cbn. rewrite C. reflexivity.
Qed.

Lemma not_lt_class junk :
  ~ In (N_of_ascii "<") junk -> Forall (fun x => not_char "<" x = true) junk.
Proof.
  intros H. apply Forall_forall. intros c Hc. apply (@not_char_true "<"%char).
  intros ->. exact (H Hc).
Qed.

(** X4: the content-bearing form goes as a whole: the white space in
    front, the opening tag, the inline text [junk] and the closing tag. *)
Theorem remove_transkribus_metadata_with_content a w attrs junk b :
  ~ occurs "<TranskribusMetadata" a ->
  isspace (last a 0%N) = false ->
  Forall (fun c => isspace c = true) w ->
  ~ In (N_of_ascii ">") attrs ->
  ~ In (N_of_ascii "<") junk ->
  remove_transkribus_metadata
    (a ++ w ++ u "<TranskribusMetadata" ++ attrs ++ u ">"
       ++ junk ++ u "</TranskribusMetadata>" ++ b)
  = a ++ remove_transkribus_metadata b.
Proof.
  intros O L W A J. unfold remove_transkribus_metadata.
  rewrite sub_tag by assumption. do 2 f_equal.
  unfold after_close.
  change (u "</TranskribusMetadata>" ++ b)
    with (N_of_ascii "<" :: u "/TranskribusMetadata>" ++ b).
  rewrite drop_while_stops; [|apply not_lt_class; exact J|apply (not_char_false "<")].
  change (N_of_ascii "<" :: u "/TranskribusMetadata>" ++ b)
    with (u "</TranskribusMetadata>" ++ b).
  rewrite strip_prefix_app. reflexivity.
Qed.

Lemma remove_transkribus_metadata_with_content_witness :
  remove_transkribus_metadata
    (u "<Page>" ++ [10; 32; 32]%N ++ u "<TranskribusMetadata" ++ u " docId=1" ++ u ">"
       ++ u "status NEW" ++ u "</TranskribusMetadata>" ++ u "<Text/></Page>")
  = u "<Page>" ++ remove_transkribus_metadata (u "<Text/></Page>").
Proof.
  apply remove_transkribus_metadata_with_content.
  - apply occursb_spec. reflexivity.
  - reflexivity.
  - repeat constructor.
  - cbn. intros H. repeat (destruct H as [H|H]; [discriminate H|]). exact H.
  - cbn. intros H. repeat (destruct H as [H|H]; [discriminate H|]). exact H.
Defined.

(** X5: when the content holds markup, only the opening tag goes with
    the white space in front of it: the inline text [junk], the markup and
    the closing tag behind it stay for the rest of the search. *)
Theorem remove_transkribus_metadata_nested_markup a w attrs junk rest :
  ~ occurs "<TranskribusMetadata" a ->
  isspace (last a 0%N) = false ->
  Forall (fun c => isspace c = true) w ->
  ~ In (N_of_ascii ">") attrs ->
  ~ In (N_of_ascii "<") junk ->
  strip_prefix "/TranskribusMetadata>" rest = None ->
  remove_transkribus_metadata
    (a ++ w ++ u "<TranskribusMetadata" ++ attrs ++ u ">" ++ junk ++ u "<" ++ rest)
  = a ++ remove_transkribus_metadata (junk ++ u "<" ++ rest).
Proof.
  intros O L W A J R. unfold remove_transkribus_metadata.
  rewrite sub_tag by assumption. do 2 f_equal.
  unfold after_close. change (u "<" ++ rest) with (N_of_ascii "<" :: rest).
  rewrite drop_while_stops; [|apply not_lt_class; exact J|apply (not_char_false "<")].
  change (u "</TranskribusMetadata>") with (N_of_ascii "<" :: u "/TranskribusMetadata>").
  cbn [strip_prefix]. rewrite N.eqb_refl, R. reflexivity.
Qed.

Lemma remove_transkribus_metadata_nested_markup_witness :
  remove_transkribus_metadata
    (u "<Page>" ++ [32]%N ++ u "<TranskribusMetadata" ++ u "" ++ u ">"
       ++ u "x" ++ u "<" ++ u "b/></TranskribusMetadata></Page>")
  = u "<Page>" ++ u "x<b/></TranskribusMetadata></Page>".
Proof.
  rewrite remove_transkribus_metadata_nested_markup.
  - reflexivity.
  - apply occursb_spec. reflexivity.
  - reflexivity.
  - repeat constructor.
  - intros [].
  - cbn. intros H. repeat (destruct H as [H|H]; [discriminate H|]). exact H.
  - reflexivity.
Defined.

(** ** What the tree locator finds *)

(** X6: when the root is not a directory (a file, something else, or
    nothing at all) the search raises [NotADirectoryError] before it
    yields anything, and so does the generator of the records. *)
Theorem not_a_directory_root_raises h path e name collections :
  is_dir e = false ->
  find_file path e name = Trace [] (Raised NotADirectoryError)
  /\ dataset_generator_transkribus h path e collections
     = Trace [] (Raised NotADirectoryError).
Proof.
  intros D. destruct e; try discriminate D; split; reflexivity.
Qed.

Lemma not_a_directory_root_raises_witness :
  dataset_generator_transkribus Sample.host
    (map u ["/"; "data"; "readme.txt"]) File [7%Z]
  = Trace [] (Raised NotADirectoryError).
Proof.
  apply (@not_a_directory_root_raises Sample.host (map u ["/"; "data"; "readme.txt"]) File
           (u "metadata.xml") [7%Z]).
  reflexivity.
Defined.

Lemma find_file_dir path entries name :
  find_file path (Dir entries) name =
  match find (is_target name) (filter is_item entries) with
  | Some _ => Trace [child path name] Exhausted
  | None =>
      Trace (flat_map
               (fun d => if is_item d && is_dir (snd d)
                         then yielded (find_file (child path (fst d)) (snd d) name)
                         else [])
               entries)
            Exhausted
  end.
Proof.
  cbn [find_file]. cbv zeta.
  change (fun f : str * entry => is_file (snd f) && str_eqb (fst f) name)
    with (is_target name).
  pose proof (find_target name entries) as T.
  destruct (find _ _) as [f|].
  - destruct T as [-> _]. reflexivity.
  - rewrite for_each_exhausted.
    + f_equal. apply flat_map_ext. intros d. destruct (is_item d && is_dir (snd d)); reflexivity.
    + apply Forall_forall. intros d _.
      destruct (is_item d && is_dir (snd d)) eqn:K; [|reflexivity].
      apply find_file_dir_exhausted. apply andb_prop in K. tauto.
Qed.

Lemma find_file_sound name e :
  forall path p, In p (yielded (find_file path e name)) ->
    exists rel found,
      reach name e rel found /\ In (name, File) found /\ p = path ++ rel ++ [name].
Proof.
  induction e as [| |entries IH] using entry_rect'; try (intros path p []).
  intros path p H. rewrite find_file_dir in H.
  pose proof (find_target name entries) as T.
  destruct (find _ _) as [f|]; cbn [yielded] in H.
  - destruct H as [<-|[]]. exists [], entries. split; [constructor|].
    split; [tauto|reflexivity].
  - apply in_flat_map in H. destruct H as ([n d] & Hd & H).
    destruct (is_item (n, d) && is_dir (snd (n, d))) eqn:K; [|destruct H].
    cbn [fst snd] in *. destruct d as [|sub|]; try (apply andb_prop in K; cbn in K; intuition discriminate).
    rewrite Forall_forall in IH.
    destruct (IH (n, Dir sub) Hd _ _ H) as (rel & found & R & F & ->).
    exists (n :: rel), found. split; [|split; [exact F|]].
    + econstructor; eassumption.
    + unfold child. rewrite <- app_assoc. reflexivity.
Qed.

Lemma find_file_complete name e rel found :
  reach name e rel found -> In (name, File) found ->
  forall path, In (path ++ rel ++ [name]) (yielded (find_file path e name)).
Proof.
  induction 1 as [entries|entries d sub rel found N Hd R IH]; intros F path;
    rewrite find_file_dir; pose proof (find_target name entries) as T;
    destruct (find _ _) as [f|]; cbn [yielded].
  - left. reflexivity.
  - contradiction.
  - tauto.
  - apply in_flat_map. exists (d, Dir sub). split; [exact Hd|].
    cbn. specialize (IH F (child path d)). unfold child in *.
    rewrite <- app_assoc in IH. exact IH.
Qed.

(** X7: the paths that the search yields are exactly those of the files
    with the target name in a directory that is reached from the root
    through directories without such a file. *)
Theorem find_file_yields_exactly path e name p :
  In p (yielded (find_file path e name)) <->
  exists rel found,
    reach name e rel found /\ In (name, File) found /\ p = path ++ rel ++ [name].
Proof.
  split.
  - apply find_file_sound.
  - intros (rel & found & R & F & ->). apply find_file_complete with (found := found);
      assumption.
Qed.

Lemma find_file_below name e path p :
  In p (yielded (find_file path e name)) -> exists rel, p = path ++ rel.
Proof.
  intros H. apply find_file_sound in H. destruct H as (rel & found & _ & _ & ->).
  exists (rel ++ [name]). reflexivity.
Qed.

(** X8: in a tree whose directories list every name once, no path is
    yielded twice. *)
Theorem find_file_yields_once name e :
  tidy e -> forall path, NoDup (yielded (find_file path e name)).
Proof.
  induction e as [| |entries IH] using entry_rect'; intros T path; try constructor.
  rewrite find_file_dir. destruct (find _ _); cbn [yielded].
  { constructor; [intros []|constructor]. }
  inversion T as [| |entries' Hn Ht]. subst entries'. clear T.
  induction entries as [|[n d] entries IHentries]; [constructor|].
  cbn [flat_map]. inversion IH as [|? ? IHd IHrest]. subst.
  inversion Hn as [|? ? Hfresh Hn']. subst. inversion Ht as [|? ? Htd Ht']. subst.
  apply NoDup_app.
  - destruct (is_item (n, d) && is_dir (snd (n, d))); [|constructor].
    apply IHd. exact Htd.
  - apply IHentries; assumption.
  - intros p Hp Hq.
    destruct (is_item (n, d) && is_dir (snd (n, d))); [|destruct Hp].
    cbn [fst snd] in Hp. apply find_file_below in Hp. destruct Hp as [r1 E1].
    apply in_flat_map in Hq. destruct Hq as ([n' d'] & Hd' & Hq).
    destruct (is_item (n', d') && is_dir (snd (n', d'))); [|destruct Hq].
    cbn [fst snd] in Hq. apply find_file_below in Hq. destruct Hq as [r2 E2].
    unfold child in *. rewrite <- !app_assoc in *. rewrite E1 in E2.
    apply app_inv_head in E2. cbn in E2. inversion E2. subst n'.
    apply Hfresh. apply in_map_iff. exists (n, d'). split; [reflexivity|exact Hd'].
Qed.

Lemma find_file_yields_once_witness :
  NoDup (yielded (find_file Sample.root Sample.tree "metadata.xml")).
Proof.
  apply find_file_yields_once.
  repeat (constructor; cbn; try (intros H; repeat (destruct H as [H|H]; [discriminate H|]); exact H)).
Defined.

(** ** The filter and the bundles *)

Lemma filter_miss_false_iff collections ids :
  filter_miss collections ids = false <->
  collections = [] \/ exists c, In c collections /\ In c ids.
Proof.
  unfold filter_miss. destruct collections as [|c0 cs].
  - split; [left; reflexivity|reflexivity].
  - rewrite negb_false_iff, existsb_exists. split.
    + intros (c & Hc & E). right. apply existsb_exists in E.
      destruct E as (d & Hd & E). apply Z.eqb_eq in E. subst d. exists c. tauto.
    + intros [E|(c & Hc & Hd)]; [discriminate E|].
      exists c. split; [exact Hc|]. apply existsb_exists. exists c.
      split; [exact Hd|apply Z.eqb_refl].
Qed.

(** X9: a bundle is passed over exactly when the filter is not empty and
    holds none of the collection ids of the bundle. *)
Theorem filter_miss_exactly collections ids :
  filter_miss collections ids = true <->
  collections <> [] /\ forall c, In c collections -> ~ In c ids.
Proof.
  split.
  - intros H. split.
    + intros ->. discriminate H.
    + intros c Hc Hd.
      assert (F : filter_miss collections ids = false).
      { apply filter_miss_false_iff. right. exists c. tauto. }
      congruence.
  - intros [N D]. destruct (filter_miss collections ids) eqn:F; [reflexivity|].
    apply filter_miss_false_iff in F. destruct F as [F|(c & Hc & Hd)]; [contradiction|].
    destruct (D c Hc Hd).
Qed.

(** X10: the filter does not change what a bundle that passes it yields:
    with one of its collection ids in the filter, the bundle runs as it
    does without a filter. *)
Theorem filter_hit_runs_unfiltered h collections b metadata ids c :
  read_metadata h b = Ok metadata ->
  doc_collections metadata = Ok ids ->
  In c collections -> In c ids ->
  bundle h collections b = bundle h [] b.
Proof.
  intros M C Hc Hd. unfold bundle. rewrite M. cbn [try]. rewrite C. cbn [try].
  assert (F : filter_miss collections ids = false).
  { apply filter_miss_false_iff. right. exists c. tauto. }
  rewrite F. reflexivity.
Qed.

Lemma filter_hit_runs_unfiltered_witness :
  bundle Sample.host [9%Z; 7%Z] (map u ["/"; "data"; "doc"; "metadata.xml"])
  = bundle Sample.host [] (map u ["/"; "data"; "doc"; "metadata.xml"]).
Proof.
  apply filter_hit_runs_unfiltered
    with (metadata := document (map u ["colList"]) Sample.metadata_xml)
         (ids := [7%Z]) (c := 7%Z).
  - reflexivity.
  - reflexivity.
  - right. left. reflexivity.
  - left. reflexivity.
Defined.

(** ** The pages of a bundle *)

Lemma pages_cons h metadata_root doc paths struct structs :
  pages h metadata_root doc paths (struct :: structs) =
  match page_record h metadata_root doc paths struct with
  | Ok r =>
      Trace (r :: yielded (pages h metadata_root doc paths structs))
            (ended (pages h metadata_root doc paths structs))
  | Err e => Trace [] (Raised e)
  end.
Proof.
  unfold pages. rewrite for_each_cons.
  destruct (page_record h metadata_root doc paths struct); reflexivity.
Qed.

Lemma pages_all h metadata_root doc paths structs records :
  Forall2 (fun s r => page_record h metadata_root doc paths s = Ok r) structs records ->
  pages h metadata_root doc paths structs = Trace records Exhausted.
Proof.
  induction 1 as [|s r structs records Hs _ IH]; [reflexivity|].
  rewrite pages_cons, Hs, IH. reflexivity.
Qed.

(** X11: the pages of a bundle give one record for each page division, in
    the order of the structure document, until a division fails: the
    records of the divisions before it have been yielded, its error ends
    the generator, and the divisions behind it are not looked at. *)
Theorem pages_until_first_error h metadata_root doc paths before records struct e after :
  Forall2 (fun s r => page_record h metadata_root doc paths s = Ok r) before records ->
  page_record h metadata_root doc paths struct = Err e ->
  pages h metadata_root doc paths before = Trace records Exhausted
  /\ pages h metadata_root doc paths (before ++ struct :: after) = Trace records (Raised e).
Proof.
  intros B S. split; [apply pages_all; exact B|].
  unfold pages. rewrite for_each_stops.
  - fold (pages h metadata_root doc paths before).
    rewrite (@pages_all h metadata_root doc paths before records B), S.
    cbn. rewrite app_nil_r. reflexivity.
  - rewrite S. discriminate.
Qed.

Lemma pages_until_first_error_witness :
  let paths := [(KStr "IMG_1", u "p 1.jpg"); (KStr "ALTO_1", u "alto/p1.xml");
                (KStr "PAGEXML_1", u "page/p1.xml")] in
  let page1 := to_value [] (Sample.div_xml "1" ["PAGEXML_1"; "IMG_1"; "ALTO_1"]) in
  let page2 := to_value [] (Sample.div_xml "2" ["ALTO_1"; "PAGEXML_1"]) in
  pages Sample.host (map u ["/"; "data"; "doc"]) 42 paths [page1; page2; page1]
  = Trace [{| image := u "/data/doc/p 1.jpg"; doc_id := 42; sequence := PStr "1";
              alto := u "<alto>1</alto>";
              page := u "<Page><Text>side 1</Text></Page>" |}]
          (Raised KeyError).
Proof.
  intros paths page1 page2.
  apply (@pages_until_first_error Sample.host (map u ["/"; "data"; "doc"]) 42 paths
           [page1] _ page2 KeyError [page1]).
  - constructor; [vm_compute; reflexivity|constructor].
  - vm_compute. reflexivity.
Defined.





(** X13: the title is read although no record uses it: a metadata
    document that passes the filter and has a document id but no title
    makes the bundle raise [KeyError] before the structure document is
    read. *)
Theorem missing_title_raises_key_error h collections b metadata ids n e :
  read_metadata h b = Ok metadata ->
  doc_collections metadata = Ok ids ->
  filter_miss collections ids = false ->
  (x <- getitems metadata (map u ["trpDocMetadata"; "docId"]) ;; int x) = Ok n ->
  getitems metadata (map u ["trpDocMetadata"; "title"]) = Err e ->
  e = KeyError /\ bundle h collections b = Trace [] (Raised KeyError).
Proof.
  intros M C F D T.
  assert (E : e = KeyError).
  { cbn [map getitems] in D, T.
    destruct (getitem metadata (u "trpDocMetadata")) as [v|]; cbn [bind] in *; [|discriminate D].
    destruct v; try discriminate D.
    destruct (getitem (PDict items) (u "title")) eqn:G; cbn [bind] in T; [discriminate T|].
    apply getitem_dict_error in G. congruence. }
  split; [exact E|]. subst e.
  unfold bundle. rewrite M. cbn [try]. rewrite C. cbn [try]. rewrite F, D. cbn [try].
  rewrite T. reflexivity.
Qed.

Lemma missing_title_raises_key_error_witness :
  let doc := Element "trpDocMetadata" []
               [ Sample.leaf "docId" "42";
                 Element "collectionList" []
                   [ Element "colList" [] [ Sample.leaf "colId" "7" ] "" ] "" ] "" in
  let h := {| read_text := read_text Sample.host;
              expat := fun _ => Ok doc;
              joinpath := joinpath Sample.host;
              path_str := path_str Sample.host |} in
  bundle h [7%Z] (map u ["/"; "data"; "doc"; "metadata.xml"]) = Trace [] (Raised KeyError).
Proof.
  intros doc h.
  apply (@missing_title_raises_key_error h [7%Z] _ (document (map u ["colList"]) doc)
           [7%Z] 42%Z KeyError); reflexivity.
Defined.

(** ** The run over the bundles *)

(** X14: the records of a run are those of the bundles in the order in
    which they are located, up to the first bundle that returns or raises:
    what that bundle yielded before is still part of the run, its end is
    the end of the run, and the bundles behind it are not read. *)
Theorem run_until_first_stop h root tree collections before b after :
  yielded (find_file root tree "metadata.xml") = before ++ b :: after ->
  Forall (fun x => ended (bundle h collections x) = Exhausted) before ->
  ended (bundle h collections b) <> Exhausted ->
  dataset_generator_transkribus h root tree collections
  = Trace (flat_map (fun x => yielded (bundle h collections x)) before
           ++ yielded (bundle h collections b))
          (ended (bundle h collections b)).
Proof.
  intros F B S. unfold dataset_generator_transkribus, for_gen. rewrite F.
  rewrite for_each_stops by exact S. rewrite (for_each_exhausted _ B).
  unfold and_then. cbn [ended yielded].
  destruct (ended (bundle h collections b)); [congruence| |]; reflexivity.
Qed.

Lemma run_until_first_stop_witness :
  dataset_generator_transkribus Sample.host Sample.root Sample.tree [9%Z]
  = Trace [] Returned.
Proof.
  apply (@run_until_first_stop Sample.host Sample.root Sample.tree [9%Z] []
           (map u ["/"; "data"; "doc"; "metadata.xml"]) []).
  - reflexivity.
  - constructor.
  - vm_compute. discriminate.
Defined.

(** X15: when every bundle that the search locates runs to its end, the
    run yields the records of all of them, in the order in which the
    bundles are located, and it ends as the search ends: an error of the
    search is raised behind the records. *)
Theorem run_of_complete_bundles h root tree collections :
  Forall (fun x => ended (bundle h collections x) = Exhausted)
         (yielded (find_file root tree "metadata.xml")) ->
  yielded (dataset_generator_transkribus h root tree collections)
  = flat_map (fun x => yielded (bundle h collections x))
             (yielded (find_file root tree "metadata.xml"))
  /\ ended (dataset_generator_transkribus h root tree collections)
     = match ended (find_file root tree "metadata.xml") with
       | Raised e => Raised e
       | _ => Exhausted
       end.
Proof.
  intros B. unfold dataset_generator_transkribus, for_gen.
  rewrite (for_each_exhausted _ B). cbn [ended yielded].
  destruct (ended (find_file root tree (u "metadata.xml"))); split; reflexivity.
Qed.

Lemma run_of_complete_bundles_witness :
  map sequence (yielded (dataset_generator_transkribus Sample.host Sample.root Sample.tree [7%Z]))
  = [PStr "1"; PStr "2"]
  /\ ended (dataset_generator_transkribus Sample.host Sample.root Sample.tree [7%Z]) = Exhausted.
Proof.
  destruct (@run_of_complete_bundles Sample.host Sample.root Sample.tree [7%Z]) as [Y E].
  - repeat constructor.
  - rewrite Y, E. split; vm_compute; reflexivity.
Defined.

(** ** Elements that are not repeated

    The structure document is parsed without [force_list]: the value of
    an element that occurs once under its parent is its dictionary, not a
    list of one, and a loop over it runs over the keys of the
    dictionary. *)

Lemma dict_set_nonempty {V} k (v : V) d : dict_set k v d <> [].
Proof. destruct d as [|[k' v'] d]; cbn; [|destruct (str_eqb k k')]; discriminate. Qed.

Lemma push_data_nonempty fl item key data : push_data fl item key data <> [].
Proof.
  unfold push_data. destruct (dict_get key _) as [[]|];
    try destruct (existsb _ fl); apply dict_set_nonempty.
Qed.

Lemma attr_fold_nonempty attrs :
  forall d : list (str * pyval),
    d <> [] ->
    fold_left (fun d kv => dict_set (u "@" ++ fst kv) (PStr (snd kv)) d) attrs d <> [].
Proof.
  induction attrs as [|kv attrs IH]; intros d Hd; [exact Hd|].
  cbn [fold_left]. apply IH. apply dict_set_nonempty.
Qed.

Lemma attr_entries_nonempty attrs : attrs <> [] -> attr_entries attrs <> [].
Proof.
  unfold attr_entries. destruct attrs as [|kv attrs]; [congruence|]. intros _.
  cbn [fold_left]. apply attr_fold_nonempty. apply dict_set_nonempty.
Qed.

Lemma push_children_nonempty fl children :
  forall item,
    children <> [] \/ (exists d, item = Some d /\ d <> []) ->
    exists d, fold_left (push_child fl) children item = Some d /\ d <> [].
Proof.
  induction children as [|c children IH]; intros item H.
  - destruct H as [H|H]; [congruence|exact H].
  - cbn [fold_left]. apply IH. right. eexists. split; [reflexivity|].
    apply push_data_nonempty.
Qed.

(** An element with an attribute or a child is a dictionary with at
    least one key. *)
Lemma to_value_dict fl tag attrs children text :
  attrs <> [] \/ children <> [] ->
  exists k v d, to_value fl (Element tag attrs children text) = PDict ((k, v) :: d).
Proof.
  intros H. rewrite to_value_eq. cbv zeta.
  destruct (@push_children_nonempty fl children
              (match attr_entries attrs with [] => None | _ => Some (attr_entries attrs) end))
    as (d & -> & Hd).
  { destruct H as [H|H]; [right|left; exact H].
    apply attr_entries_nonempty in H. destruct (attr_entries attrs) eqn:E; [congruence|].
    eexists. split; [reflexivity|discriminate]. }
  destruct (strip text).
  - destruct d as [|[k v] d]; [congruence|]. exists k, v, d. reflexivity.
  - pose proof (push_data_nonempty fl (Some d) (u "#text") (PStr (n :: s))) as P.
    destruct (push_data _ _ _ _) as [|[k v] d']; [congruence|]. exists k, v, d'. reflexivity.
Qed.

(** The loop over an element that occurs once starts with a text. *)
Lemma sole_child_loop tag attrs children text k ctag cattrs cchildren ctext :
  element_key k ->
  sole k (Element ctag cattrs cchildren ctext) children ->
  cattrs <> [] \/ cchildren <> [] ->
  exists key rest,
    (x <- getitem (to_value [] (Element tag attrs children text)) k ;; iter x)
    = Ok (PStr key :: rest).
Proof.
  intros K S D. rewrite (to_value_sole_child _ _ _ _ K S). cbn [existsb bind].
  destruct (to_value_dict [] ctag ctext D) as (key & v & d & ->).
  cbn [iter map fst]. eexists _, _. reflexivity.
Qed.

Lemma page_record_of_text h metadata_root doc paths s :
  page_record h metadata_root doc paths (PStr s) = Err TypeError.
Proof. reflexivity. Qed.

(** X16: a structure document with a single page division cannot be
    converted: the loop over the divisions runs over the keys of the one
    division and the first of them raises [TypeError]. *)
Theorem single_page_raises_type_error
    h metadata_root doc paths tag attrs children text ptag pattrs pchildren ptext :
  sole "ns3:div" (Element ptag pattrs pchildren ptext) children ->
  pattrs <> [] \/ pchildren <> [] ->
  exists structs,
    (divs <- getitem (to_value [] (Element tag attrs children text)) "ns3:div" ;; iter divs)
    = Ok structs
    /\ pages h metadata_root doc paths structs = Trace [] (Raised TypeError).
Proof.
  intros S D.
  destruct (@sole_child_loop tag attrs children text (u "ns3:div") ptag pattrs pchildren ptext
              (element_key_tag "ns3:div" eq_refl) S D) as (key & rest & E).
  exists (PStr key :: rest). split; [exact E|].
  rewrite pages_cons, page_record_of_text. reflexivity.
Qed.

Lemma single_page_raises_type_error_witness :
  exists structs,
    (divs <- getitem (to_value [] (Element "ns3:div" [(u "TYPE", u "MANUSCRIPT")]
                                     [Sample.div_xml "1" ["IMG_1"; "ALTO_1"]] ""))
                     "ns3:div" ;; iter divs) = Ok structs
    /\ pages Sample.host (map u ["/"; "data"; "doc"]) 42 [] structs
       = Trace [] (Raised TypeError).
Proof.
  apply single_page_raises_type_error
    with (ptag := u "ns3:div") (pattrs := [(u "ORDER", u "1")])
         (pchildren := map Sample.fptr_xml ["IMG_1"; "ALTO_1"]) (ptext := u "").
  - exists [], []. repeat split. constructor.
  - left. discriminate.
Defined.

(** X17: a page division with a single file pointer raises [TypeError]:
    the search for the ids runs over the keys of the one pointer. *)
Theorem single_pointer_raises_type_error
    h metadata_root doc paths tag attrs children text ftag fattrs fchildren ftext :
  sole "ns3:fptr" (Element ftag fattrs fchildren ftext) children ->
  fattrs <> [] \/ fchildren <> [] ->
  page_record h metadata_root doc paths (to_value [] (Element tag attrs children text))
  = Err TypeError.
Proof.
  intros S D.
  destruct (@sole_child_loop tag attrs children text (u "ns3:fptr") ftag fattrs fchildren ftext
              (element_key_tag "ns3:fptr" eq_refl) S D) as (key & rest & E).
  unfold page_record, next_id at 1.
  destruct (getitem _ (u "ns3:fptr")) as [x|]; cbn [bind] in *; [|discriminate E].
  rewrite E. reflexivity.
Qed.

Lemma single_pointer_raises_type_error_witness :
  page_record Sample.host (map u ["/"; "data"; "doc"]) 42 [(KStr "IMG_1", u "p 1.jpg")]
    (to_value [] (Sample.div_xml "1" ["IMG_1"]))
  = Err TypeError.
Proof.
  apply single_pointer_raises_type_error
    with (ftag := u "ns3:fptr") (fattrs := [])
         (fchildren := [Element "ns3:area" [(u "FILEID", u "IMG_1")] [] ""]) (ftext := u "").
  - exists [], []. repeat split. constructor.
  - right. discriminate.
Defined.

Lemma foldM_app {A S} (f : S -> A -> result S) (l1 l2 : list A) (s : S) :
  foldM f (l1 ++ l2) s = (s' <- foldM f l1 s ;; foldM f l2 s').
Proof.
  revert s. induction l1 as [|a l1 IH]; intros s; [reflexivity|].
  cbn [app foldM]. destruct (f s a); cbn [bind]; [apply IH|reflexivity].
Qed.

Lemma store_group_of_text paths s : store_group paths (PStr s) = Err TypeError.
Proof. reflexivity. Qed.

Lemma store_file_of_text paths s : store_file paths (PStr s) = Err TypeError.
Proof. reflexivity. Qed.

(** X18: a file section with a single inner group cannot be read: the
    loop over the groups runs over the keys of the one group, and the path
    mapping raises [TypeError]. *)
Theorem single_group_raises_type_error
    mets tag attrs children text gtag gattrs gchildren gtext :
  getitems mets (map u ["ns3:mets"; "ns3:fileSec"; "ns3:fileGrp"])
  = Ok (to_value [] (Element tag attrs children text)) ->
  sole "ns3:fileGrp" (Element gtag gattrs gchildren gtext) children ->
  gattrs <> [] \/ gchildren <> [] ->
  file_paths mets = Err TypeError.
Proof.
  intros M S D.
  destruct (@sole_child_loop tag attrs children text (u "ns3:fileGrp")
              gtag gattrs gchildren gtext (element_key_tag "ns3:fileGrp" eq_refl) S D)
    as (key & rest & E).
  unfold file_paths. cbn [map getitems] in *.
  destruct (getitem mets (u "ns3:mets")) as [v1|]; cbn [bind] in *; [|discriminate M].
  destruct (getitem v1 (u "ns3:fileSec")) as [v2|]; cbn [bind] in *; [|discriminate M].
  destruct (getitem v2 (u "ns3:fileGrp")) as [v3|]; cbn [bind] in *; [|discriminate M].
  inversion M. subst v3.
  destruct (getitem _ (u "ns3:fileGrp")) as [x|]; cbn [bind] in *; [|discriminate E].
  rewrite E. reflexivity.
Qed.

Lemma single_group_raises_type_error_witness :
  file_paths
    (document []
       (Element "ns3:mets" []
          [ Element "ns3:fileSec" []
              [ Element "ns3:fileGrp" [(u "ID", u "MASTER")]
                  [ Sample.group_xml "IMG" Sample.img_files ] "" ] "" ] ""))
  = Err TypeError.
Proof.
  apply single_group_raises_type_error
    with (tag := u "ns3:fileGrp") (attrs := [(u "ID", u "MASTER")])
         (children := [Sample.group_xml "IMG" Sample.img_files]) (text := u "")
         (gtag := u "ns3:fileGrp") (gattrs := [(u "ID", u "IMG")])
         (gchildren := map (fun f => Sample.file_xml (fst f) (snd f)) Sample.img_files)
         (gtext := u "").
  - reflexivity.
  - exists [], []. repeat split. constructor.
  - left. discriminate.
Defined.

(** X19: a group with a single file entry cannot be read either: the
    groups before it are stored, then the loop over its entries runs over
    the keys of the one entry and the path mapping raises [TypeError]. *)
Theorem single_file_raises_type_error
    mets before after paths tag attrs children text ftag fattrs fchildren ftext :
  file_section mets (before ++ to_value [] (Element tag attrs children text) :: after) ->
  foldM store_group before [] = Ok paths ->
  sole "ns3:file" (Element ftag fattrs fchildren ftext) children ->
  fattrs <> [] \/ fchildren <> [] ->
  file_paths mets = Err TypeError.
Proof.
  intros M B S D.
  destruct (@sole_child_loop tag attrs children text (u "ns3:file")
              ftag fattrs fchildren ftext (element_key_tag "ns3:file" eq_refl) S D)
    as (key & rest & E).
  unfold file_paths. unfold file_section in M. rewrite M. cbn [bind iter].
  rewrite foldM_app, B. cbn [bind foldM]. unfold store_group at 1.
  destruct (getitem _ (u "ns3:file")) as [x|]; cbn [bind] in *; [|discriminate E].
  rewrite E. reflexivity.
Qed.

Lemma single_file_raises_type_error_witness :
  file_paths
    (document []
       (Element "ns3:mets" []
          [ Element "ns3:fileSec" []
              [ Element "ns3:fileGrp" [(u "ID", u "MASTER")]
                  [ Sample.group_xml "IMG" Sample.img_files;
                    Sample.group_xml "TEXT" [("PAGEXML_1", "page/p1.xml")] ] "" ] "" ] ""))
  = Err TypeError.
Proof.
  apply single_file_raises_type_error
    with (before := [to_value [] (Sample.group_xml "IMG" Sample.img_files)]) (after := [])
         (paths := [(KStr "IMG_1", u "p 1.jpg"); (KStr "IMG_2", u "p 2.jpg")])
         (tag := u "ns3:fileGrp") (attrs := [(u "ID", u "TEXT")])
         (children := [Sample.file_xml "PAGEXML_1" "page/p1.xml"]) (text := u "")
         (ftag := u "ns3:file") (fattrs := [(u "ID", u "PAGEXML_1")])
         (fchildren := [Element "ns3:FLocat" [(u "ns2:href", u "page/p1.xml")] [] ""])
         (ftext := u "").
  - reflexivity.
  - reflexivity.
  - exists [], []. repeat split. constructor.
  - left. discriminate.
Defined.

(** ** The collection ids of a bundle *)

Lemma push_data_more fl item key data l :
  dict_get key (entries_of item) = Some (PList l) ->
  dict_get key (push_data fl item key data) = Some (PList (l ++ [data])).
Proof.
  intros G. unfold push_data. fold (entries_of item). rewrite G.
  apply dict_get_set_same.
Qed.

Lemma push_children_more fl k children :
  forall item l,
    dict_get k (entries_of item) = Some (PList l) ->
    dict_get k (entries_of (fold_left (push_child fl) children item))
    = Some (PList (l ++ map (to_value fl) (filter (has_tag k) children))).
Proof.
  induction children as [|c children IH]; intros item l G.
  - cbn. rewrite app_nil_r. exact G.
  - cbn [fold_left filter]. unfold has_tag at 1. destruct (str_eqb (tag_of c) k) eqn:E.
    + apply str_eqb_eq in E. rewrite (IH _ (l ++ [to_value fl c])).
      * cbn [map]. rewrite <- app_assoc. reflexivity.
      * unfold push_child. cbn [entries_of]. subst k. apply push_data_more. exact G.
    + apply IH. unfold push_child. cbn [entries_of].
      rewrite push_data_other; [exact G|]. apply str_eqb_neq in E. congruence.
Qed.





(** X21: a metadata document whose [collectionList] has neither
    attributes nor child elements has no dictionary there: the collection
    ids raise [TypeError] instead of being empty. *)
Theorem empty_collection_list_raises_type_error attrs children text cl_text :
  sole "collectionList" (Element "collectionList" [] [] cl_text) children ->
  doc_collections (document (map u ["colList"]) (Element "trpDocMetadata" attrs children text))
  = Err TypeError.
Proof.
  intros S. unfold doc_collections, document.
  cbn [map getitems tag_of].
  unfold getitem at 1. rewrite push_data_first by reflexivity.
  cbn [existsb map]. change (str_eqb (u "trpDocMetadata") (u "colList") || false) with false.
  cbn [bind].
  rewrite (to_value_sole_child _ _ _ _ (element_key_tag "collectionList" eq_refl) S).
  change (existsb (str_eqb (u "collectionList")) [u "colList"]) with false. cbn [bind].
  rewrite to_value_eq. cbn. destruct (strip cl_text); reflexivity.
Qed.

Lemma empty_collection_list_raises_type_error_witness :
  doc_collections
    (document (map u ["colList"])
       (Element "trpDocMetadata" []
          [ Sample.leaf "docId" "42"; Element "collectionList" [] [] " " ] ""))
  = Err TypeError.
Proof.
  apply empty_collection_list_raises_type_error with (cl_text := u " ").
  exists [Sample.leaf "docId" "42"], []. repeat split. repeat constructor; discriminate.
Defined.

(** ** The keys of the path mapping *)

Lemma dict_set_ok k v d : Forall entry_ok d -> entry_ok (k, v) -> Forall entry_ok (dict_set k v d).
Proof.
  intros D H. induction D as [|[k' v'] d Hkv D IH]; cbn [dict_set].
  - constructor; [exact H|constructor].
  - destruct (str_eqb k k'); constructor; auto.
Qed.

Lemma dict_get_ok k v d : dict_get k d = Some v -> Forall entry_ok d -> entry_ok (k, v).
Proof.
  intros G D. induction D as [|[k' v'] d Hkv D IH]; [discriminate G|].
  cbn [dict_get] in G. destruct (str_eqb k k') eqn:E; [|exact (IH G)].
  apply str_eqb_eq in E. inversion G. subst. exact Hkv.
Qed.

Lemma push_data_ok fl item key data :
  Forall entry_ok (entries_of item) -> attr_key key = false -> attrs_text data ->
  Forall entry_ok (push_data fl item key data).
Proof.
  intros D K H. unfold push_data. fold (entries_of item).
  assert (P : forall v, attrs_text v -> entry_ok (key, v)).
  { intros v Hv. split; [exact Hv|]. cbn [fst]. congruence. }
  destruct (dict_get key (entries_of item)) as [v|] eqn:G.
  - destruct (@dict_get_ok key v (entries_of item) G D) as [Hv _]. cbn [snd] in Hv.
    assert (Pair : attrs_text (PList [v; data])).
    { constructor. constructor; [exact Hv|]. constructor; [exact H|constructor]. }
    destruct v as [|z|s|l|dd]; apply dict_set_ok; try exact D; apply P; try exact Pair.
    constructor. inversion Hv. apply Forall_app. split; [assumption|].
    constructor; [exact H|constructor].
  - destruct (existsb _ fl); apply dict_set_ok; try exact D; apply P; [|exact H].
    constructor. constructor; [exact H|constructor].
Qed.

Lemma attr_entries_ok attrs : Forall entry_ok (attr_entries attrs).
Proof.
  unfold attr_entries. generalize (@nil (str * pyval)) (@Forall_nil _ entry_ok).
  induction attrs as [|kv attrs IH]; intros d D; [exact D|].
  cbn [fold_left]. apply IH. apply dict_set_ok; [exact D|].
  split; [constructor|]. intros _. eexists. reflexivity.
Qed.

Lemma element_rect' (P : element -> Prop) :
  (forall tag attrs children text,
      Forall P children -> P (Element tag attrs children text)) ->
  forall e, P e.
Proof.
  intros H. fix IH 1. intros [tag attrs children text]. apply H.
  induction children as [|c children IHc]; constructor; [apply IH|exact IHc].
Qed.

Lemma to_value_ok fl e : plain e -> attrs_text (to_value fl e).
Proof.
  induction e as [tag attrs children text IH] using element_rect'. intros Pl.
  inversion Pl as [? ? ? ? _ Pc]. subst. rewrite to_value_eq. cbv zeta.
  assert (F : forall item, Forall entry_ok (entries_of item) ->
                Forall entry_ok (entries_of (fold_left (push_child fl) children item))).
  { clear Pl. induction children as [|c children IHc]; intros item D; [exact D|].
    cbn [fold_left]. inversion IH. inversion Pc. subst.
    apply IHc; try assumption. unfold push_child. cbn [entries_of].
    apply push_data_ok; [exact D| |auto].
    match goal with H : plain c |- _ => inversion H; reflexivity || assumption end. }
  specialize (F (match attr_entries attrs with [] => None | _ => Some (attr_entries attrs) end)).
  rewrite entries_of_attrs in F. specialize (F (attr_entries_ok attrs)).
  destruct (fold_left _ _ _) as [d|]; cbn [entries_of] in F.
  - constructor. destruct (strip text); [exact F|].
    apply push_data_ok; [exact F|reflexivity|constructor].
  - destruct (strip text); constructor.
Qed.

Lemma document_ok fl root : plain root -> attrs_text (document fl root).
Proof.
  intros P. unfold document. constructor.
  apply push_data_ok; [constructor| |apply to_value_ok; exact P].
  inversion P. assumption.
Qed.

Lemma getitem_ok v k x :
  attrs_text v -> getitem v k = Ok x ->
  attrs_text x /\ (attr_key k = true -> exists s, x = PStr s).
Proof.
  intros H G. destruct v; try discriminate G. cbn [getitem] in G.
  destruct (dict_get k items) eqn:D; [|discriminate G]. inversion G. subst.
  inversion H. eapply dict_get_ok; eassumption.
Qed.

Lemma getitems_ok keys : forall v x, attrs_text v -> getitems v keys = Ok x -> attrs_text x.
Proof.
  induction keys as [|k keys IH]; intros v x H G; cbn [getitems] in G.
  - inversion G. subst. exact H.
  - destruct (getitem v k) eqn:E; cbn [bind] in G; [|discriminate G].
    eapply IH; [|exact G]. eapply getitem_ok; eassumption.
Qed.

Lemma iter_ok v l : attrs_text v -> iter v = Ok l -> Forall attrs_text l.
Proof.
  intros H G. destruct v; try discriminate G; inversion G; subst.
  - apply Forall_forall. intros x Hx. apply in_map_iff in Hx.
    destruct Hx as (c & <- & _). constructor.
  - inversion H. assumption.
  - apply Forall_forall. intros x Hx. apply in_map_iff in Hx.
    destruct Hx as (kv & <- & _). constructor.
Qed.

Lemma store_file_ok paths file paths' :
  attrs_text file -> text_keys paths -> store_file paths file = Ok paths' -> text_keys paths'.
Proof.
  intros H T S. unfold store_file in S.
  destruct (getitem file (u "@ID")) as [id|] eqn:G; cbn [bind] in S; [|discriminate S].
  destruct (getitems file _); cbn [bind] in S; [|discriminate S].
  destruct (unquote a); cbn [bind] in S; [|discriminate S].
  destruct (@getitem_ok file (u "@ID") id H G) as [_ Hs].
  destruct (Hs eq_refl) as [s ->]. cbn [hash bind] in S.
  inversion S. apply paths_set_text_keys. exact T.
Qed.

Lemma foldM_ok {A} (ok : A -> Prop) (f : paths_t -> A -> result paths_t) :
  (forall paths a paths', ok a -> text_keys paths -> f paths a = Ok paths' -> text_keys paths') ->
  forall l paths paths',
    Forall ok l -> text_keys paths -> foldM f l paths = Ok paths' -> text_keys paths'.
Proof.
  intros F. induction l as [|a l IH]; intros paths paths' L T S; cbn [foldM] in S.
  - inversion S. subst. exact T.
  - inversion L. subst. destruct (f paths a) eqn:E; cbn [bind] in S; [|discriminate S].
    eapply IH; [eassumption| |exact S]. eapply F; eassumption.
Qed.

Lemma store_group_ok paths group paths' :
  attrs_text group -> text_keys paths -> store_group paths group = Ok paths' ->
  text_keys paths'.
Proof.
  intros H T S. unfold store_group in S.
  destruct (getitem group (u "ns3:file")) as [files|] eqn:G; cbn [bind] in S; [|discriminate S].
  destruct (iter files) as [fs|] eqn:I; cbn [bind] in S; [|discriminate S].
  eapply (@foldM_ok pyval attrs_text store_file); [exact store_file_ok| |exact T|exact S].
  eapply iter_ok; [|exact I]. eapply getitem_ok; eassumption.
Qed.

(** X22: the keys of the path mapping of a parsed structure document
    are texts: [None] is never a key, so the look-up of a page without an
    image id cannot succeed. *)
Theorem file_paths_keys_are_text fl root paths :
  plain root ->
  file_paths (document fl root) = Ok paths ->
  text_keys paths /\ paths_item paths (id_key None) = Err KeyError.
Proof.
  intros P F.
  assert (T : text_keys paths).
  { unfold file_paths in F.
    destruct (getitems (document fl root) _) as [groups|] eqn:G; cbn [bind] in F;
      [|discriminate F].
    destruct (iter groups) as [gs|] eqn:I; cbn [bind] in F; [|discriminate F].
    eapply (@foldM_ok pyval attrs_text store_group);
      [exact store_group_ok| |constructor|exact F].
    eapply iter_ok; [|exact I]. eapply getitems_ok; [|exact G].
    apply document_ok. exact P. }
  split; [exact T|]. unfold paths_item. cbn [id_key].
  rewrite (@text_keys_no_none paths T). reflexivity.
Qed.

Lemma file_paths_keys_are_text_witness :
  text_keys [(KStr "IMG_1", u "p 1.jpg"); (KStr "IMG_2", u "p 2.jpg");
             (KStr "ALTO_1", u "alto/p1.xml"); (KStr "ALTO_2", u "alto/p2.xml");
             (KStr "PAGEXML_1", u "page/p1.xml")].
Proof.
  apply (@file_paths_keys_are_text [] Sample.mets_xml).
  - repeat (constructor; try reflexivity).
  - vm_compute. reflexivity.
Defined.

(** X23: a page division without the [ORDER] attribute raises
    [KeyError], also when its image is mapped; the text layers are then
    not looked up. *)
Theorem missing_order_raises_key_error h metadata_root doc paths struct ids i p e :
  pointer_list struct ids ->
  first_with "IMG_" ids = Some i ->
  paths_get (KStr i) paths = Some p ->
  getitem struct "@ORDER" = Err e ->
  page_record h metadata_root doc paths struct = Err KeyError.
Proof.
  intros P I M O.
  rewrite (page_record_pointer_list h metadata_root doc paths P).
  rewrite I. cbn [id_key]. unfold paths_item at 1. rewrite M. cbn [bind].
  rewrite O. cbn [bind]. f_equal. eapply pointer_list_order_error; eassumption.
Qed.

Lemma missing_order_raises_key_error_witness :
  page_record Sample.host (map u ["/"; "data"; "doc"]) 42
    [(KStr "IMG_1", u "p 1.jpg"); (KStr "ALTO_1", u "alto/gone.xml")]
    (to_value [] (Element "ns3:div" [(u "ID", u "PAGE_1")]
                    (map Sample.fptr_xml ["IMG_1"; "ALTO_1"]) ""))
  = Err KeyError.
Proof.
  apply missing_order_raises_key_error
    with (ids := [u "IMG_1"; u "ALTO_1"]) (i := u "IMG_1") (p := u "p 1.jpg") (e := KeyError).
  - eexists. split; [vm_compute; reflexivity|].
    repeat constructor; vm_compute; reflexivity.
  - reflexivity.
  - reflexivity.
  - reflexivity.
Defined.

(** ** Elements that are repeated *)

Lemma to_value_not_list fl e l : to_value fl e <> PList l.
Proof.
  destruct e as [tag attrs children text]. rewrite to_value_eq. cbv zeta.
  destruct (fold_left _ _ _); destruct (strip text); discriminate.
Qed.

Lemma push_data_second fl item key data v :
  dict_get key (entries_of item) = Some v ->
  (forall l, v <> PList l) ->
  dict_get key (push_data fl item key data) = Some (PList [v; data]).
Proof.
  intros G V. unfold push_data. fold (entries_of item). rewrite G.
  destruct v; try apply dict_get_set_same. destruct (V l eq_refl).
Qed.

Lemma push_children_after_first fl k children :
  forall item v,
    dict_get k (entries_of item) = Some v ->
    (forall l, v <> PList l) ->
    dict_get k (entries_of (fold_left (push_child fl) children item))
    = match filter (has_tag k) children with
      | [] => Some v
      | cs => Some (PList (v :: map (to_value fl) cs))
      end.
Proof.
  induction children as [|c children IH]; intros item v G V; [exact G|].
  cbn [fold_left filter]. unfold has_tag at 1 3. destruct (str_eqb (tag_of c) k) eqn:E.
  - apply str_eqb_eq in E.
    rewrite (@push_children_more fl k children _ [v; to_value fl c]); [reflexivity|].
    unfold push_child. cbn [entries_of]. subst k. apply push_data_second; assumption.
  - apply IH; [|exact V]. unfold push_child. cbn [entries_of].
    rewrite push_data_other; [exact G|]. apply str_eqb_neq in E. congruence.
Qed.

(** The children with a tag that is not forced: one is the bare value,
    two or more are the list of their values. *)
Lemma push_children_unforced fl k children :
  existsb (str_eqb k) fl = false ->
  forall item,
    dict_get k (entries_of item) = None ->
    dict_get k (entries_of (fold_left (push_child fl) children item))
    = match filter (has_tag k) children with
      | [] => None
      | [c] => Some (to_value fl c)
      | cs => Some (PList (map (to_value fl) cs))
      end.
Proof.
  intros F. induction children as [|c children IH]; intros item G; [exact G|].
  cbn [fold_left filter]. unfold has_tag at 1 3. destruct (str_eqb (tag_of c) k) eqn:E.
  - apply str_eqb_eq in E.
    rewrite (@push_children_after_first fl k children _ (to_value fl c)).
    + destruct (filter (has_tag k) children); reflexivity.
    + unfold push_child. cbn [entries_of]. subst k.
      rewrite push_data_first by exact G. rewrite F. reflexivity.
    + intros l. apply to_value_not_list.
  - apply IH. unfold push_child. cbn [entries_of].
    rewrite push_data_other; [exact G|]. apply str_eqb_neq in E. congruence.
Qed.

(** X26: a page division with two or more file pointers has them as a
    list, in the order of the document: the search for the ids then runs
    over the pointers themselves. *)
Theorem repeated_pointers_are_a_list tag attrs children text ids :
  (2 <= List.length (filter (has_tag "ns3:fptr") children))%nat ->
  Forall2 (fun f id => points_to (to_value [] f) id)
          (filter (has_tag "ns3:fptr") children) ids ->
  getitem (to_value [] (Element tag attrs children text)) "ns3:fptr"
  = Ok (PList (map (to_value []) (filter (has_tag "ns3:fptr") children)))
  /\ pointer_list (to_value [] (Element tag attrs children text)) ids.
Proof.
  intros L P.
  assert (G : getitem (to_value [] (Element tag attrs children text)) "ns3:fptr"
              = Ok (PList (map (to_value []) (filter (has_tag "ns3:fptr") children)))).
  { rewrite to_value_getitem.
    - rewrite push_children_unforced; [|reflexivity|].
      + destruct (filter (has_tag (u "ns3:fptr")) children) as [|c1 [|c2 cs]];
          cbn [List.length] in L; try lia. reflexivity.
      + rewrite entries_of_attrs. unfold attr_entries.
        rewrite attr_entries_other; [reflexivity|].
        apply Forall_forall. intros kv _. discriminate.
    - discriminate.
    - apply push_children_some. left. intros ->. cbn in L. lia. }
  split; [exact G|].
  eexists. split; [exact G|].
  clear G L. induction P; constructor; assumption.
Qed.

Lemma repeated_pointers_are_a_list_witness :
  pointer_list (to_value [] (Sample.div_xml "1" ["PAGEXML_1"; "IMG_1"; "ALTO_1"]))
               [u "PAGEXML_1"; u "IMG_1"; u "ALTO_1"].
Proof.
  apply repeated_pointers_are_a_list.
  - cbn. lia.
  - repeat constructor.
Defined.

(** ** Percent-decoding *)

Ltac Zify.zify_post_hook ::= Z.to_euclidean_division_equations.

(** The tests on code points and bytes, decided by arithmetic. *)
Ltac decide_tests :=
  repeat match goal with
         | |- context [(?a <? ?b)%N] => destruct (N.ltb_spec a b); try lia
         | |- context [(?a <=? ?b)%N] => destruct (N.leb_spec a b); try lia
         | |- context [(?a =? ?b)%N] => destruct (N.eqb_spec a b); try lia
         end;
  cbn [andb orb negb].

Lemma hexdig_hexchar d : (d < 16)%N -> hexdig (hexchar d) = Some d.
Proof.
  intros H. unfold hexchar, hexdig. decide_tests; f_equal; lia.
Qed.

Lemma unquote_to_bytes_percent b t :
  (b < 256)%N -> unquote_to_bytes (percent b ++ t) = b :: unquote_to_bytes t.
Proof.
  intros H. unfold percent. cbn [app unquote_to_bytes]. rewrite N.eqb_refl.
  rewrite !hexdig_hexchar by lia. f_equal. lia.
Qed.

Lemma unquote_to_bytes_keep c t :
  c <> 37%N -> unquote_to_bytes (c :: t) = c :: unquote_to_bytes t.
Proof.
  intros H. cbn [unquote_to_bytes]. apply N.eqb_neq in H. rewrite H. reflexivity.
Qed.

Lemma unquote_to_bytes_percents bs t :
  Forall (fun b => (b < 256)%N) bs ->
  unquote_to_bytes (flat_map percent bs ++ t) = bs ++ unquote_to_bytes t.
Proof.
  induction 1 as [|b bs Hb _ IH]; [reflexivity|].
  cbn [flat_map]. rewrite <- app_assoc, unquote_to_bytes_percent by exact Hb.
  rewrite IH. reflexivity.
Qed.

Lemma utf8_bytes c : scalar c -> Forall (fun b => (b < 256)%N) (utf8 c).
Proof.
  intros S. unfold scalar in S. unfold utf8. decide_tests; repeat constructor; lia.
Qed.

Lemma utf8_nonempty c : utf8 c <> [].
Proof. unfold utf8. decide_tests; discriminate. Qed.

(** The decoder reads the encoding of a code point back. *)
Lemma decode_utf8 c t : scalar c -> decode_replace (utf8 c ++ t) = c :: decode_replace t.
Proof.
  intros S. unfold scalar in S. unfold utf8.
  destruct (N.ltb_spec c 128); [|destruct (N.ltb_spec c 2048); [|destruct (N.ltb_spec c 65536)]];
    cbn [app decode_replace]; unfold is_continuation; decide_tests; f_equal; lia.
Qed.

Lemma decode_utf8s p t :
  Forall scalar p -> decode_replace (flat_map utf8 p ++ t) = p ++ decode_replace t.
Proof.
  induction 1 as [|c p Hc _ IH]; [reflexivity|].
  cbn [flat_map]. rewrite <- app_assoc, decode_utf8 by exact Hc. rewrite IH. reflexivity.
Qed.

Lemma percent_ascii b : (b < 256)%N -> Forall (fun c => (c < 128)%N) (percent b).
Proof.
  intros H. unfold percent, hexchar. repeat constructor; decide_tests; lia.
Qed.

Lemma percents_ascii bs :
  Forall (fun b => (b < 256)%N) bs -> Forall (fun c => (c < 128)%N) (flat_map percent bs).
Proof.
  induction 1 as [|b bs Hb _ IH]; [constructor|].
  cbn [flat_map]. apply Forall_app. split; [apply percent_ascii; exact Hb|exact IH].
Qed.

(** The code points of an ASCII run are collected. *)
Lemma unquote_runs_ascii a :
  Forall (fun c => (c < 128)%N) a ->
  forall run s, unquote_runs run (a ++ s) = unquote_runs (rev a ++ run) s.
Proof.
  induction 1 as [|c a Hc _ IH]; intros run s; [reflexivity|].
  cbn [app unquote_runs rev]. apply N.ltb_lt in Hc. rewrite Hc, IH, <- app_assoc.
  reflexivity.
Qed.

Lemma unquote_runs_quoted keep s :
  Forall scalar s ->
  forall run p,
    Forall scalar p ->
    (forall t, unquote_to_bytes (rev run ++ t) = flat_map utf8 p ++ unquote_to_bytes t) ->
    unquote_runs run (quote_with keep s) = p ++ s.
Proof.
  unfold quote_with. induction 1 as [|c s Hc _ IH]; intros run p Hp I.
  - cbn [flat_map unquote_runs]. specialize (I []). rewrite app_nil_r in I. rewrite I.
    rewrite decode_utf8s by exact Hp. cbn. reflexivity.
  - cbn [flat_map]. unfold quote_piece at 1.
    assert (Hp' : Forall scalar (p ++ [c])).
    { apply Forall_app. split; [exact Hp|constructor; [exact Hc|constructor]]. }
    destruct (keep c && negb (c =? 37)%N) eqn:K.
    + apply andb_prop in K. destruct K as [_ K]. apply negb_true_iff, N.eqb_neq in K.
      cbn [app unquote_runs]. destruct (N.ltb_spec c 128) as [A|A].
      * rewrite (IH (c :: run) (p ++ [c]) Hp'); [rewrite <- app_assoc; reflexivity|].
        intros t. cbn [rev]. rewrite <- app_assoc. cbn [app].
        rewrite I, unquote_to_bytes_keep by exact K.
        rewrite flat_map_app, <- app_assoc. cbn [flat_map app].
        unfold utf8. apply N.ltb_lt in A. rewrite A. reflexivity.
      * specialize (I []). rewrite app_nil_r in I. rewrite I.
        rewrite decode_utf8s by exact Hp. cbn [decode_replace]. rewrite app_nil_r.
        rewrite (IH [] [] (Forall_nil _)); [reflexivity|]. intros t. reflexivity.
    + rewrite unquote_runs_ascii by (apply percents_ascii, utf8_bytes; exact Hc).
      rewrite (IH _ (p ++ [c]) Hp'); [rewrite <- app_assoc; reflexivity|].
      intros t. rewrite rev_app_distr, rev_involutive, <- app_assoc.
      rewrite I, unquote_to_bytes_percents by (apply utf8_bytes; exact Hc).
      rewrite flat_map_app, <- app_assoc. cbn [flat_map]. rewrite app_nil_r. reflexivity.
Qed.

(** A text that was encoded without any [%] is the text itself. *)
Lemma quote_without_percent keep s :
  existsb (N.eqb 37) (quote_with keep s) = false -> quote_with keep s = s.
Proof.
  unfold quote_with. induction s as [|c s IH]; [reflexivity|].
  cbn [flat_map]. rewrite existsb_app. intros H. apply orb_false_iff in H.
  destruct H as [H1 H2]. rewrite (IH H2). unfold quote_piece in *.
  destruct (keep c && negb (c =? 37)%N); [reflexivity|].
  pose proof (utf8_nonempty c) as U. destruct (utf8 c) as [|b bs]; [congruence|].
  cbn in H1. discriminate H1.
Qed.

(** X27: [unquote] undoes the percent-encoding of every text: whichever
    code points are kept and whichever are written as the [%XX] bytes of
    their UTF-8 encoding, the decoded reference is the text again. *)
Theorem unquote_inverts_quote keep p :
  Forall scalar p -> unquote (PStr (quote_with keep p)) = Ok p.
Proof.
  intros S. cbn [unquote]. f_equal. unfold unquote_str.
  destruct (existsb (N.eqb 37) (quote_with keep p)) eqn:E.
  - rewrite (@unquote_runs_quoted keep p S [] [] (Forall_nil _)); [reflexivity|].
    intros t. reflexivity.
  - apply quote_without_percent. exact E.
Qed.

Lemma unquote_inverts_quote_witness :
  unquote (PStr (u "sm%C3%B8r%20%E2%82%AC1.xml")) = Ok (u "sm" ++ [248%N] ++ u "r " ++ [8364%N] ++ u "1.xml").
Proof.
  apply (@unquote_inverts_quote (fun c => (c <? 128)%N && negb (c =? 32)%N)
           (u "sm" ++ [248%N] ++ u "r " ++ [8364%N] ++ u "1.xml")).
  repeat constructor; unfold scalar; cbn; lia.
Defined.

(** X28: in a file section whose groups and file entries are lists, as
    the parser delivers two or more of each, the path mapping holds, under
    the id of every file entry that no later entry repeats, the text
    whose percent-encoding the location reference of the entry is, and
    all its keys are ids. *)
Theorem file_paths_store_decoded mets groups filess entries :
  file_section mets groups ->
  Forall2 file_group groups filess ->
  Forall2 file_entry (List.concat filess) entries ->
  exists paths,
    file_paths mets = Ok paths
    /\ text_keys paths
    /\ forall before id keep p after,
         entries = before ++ (id, quote_with keep p) :: after ->
         Forall scalar p ->
         ~ In id (map fst after) ->
         paths_get (KStr id) paths = Some p.
Proof.
  intros S G E. destruct (file_paths_store S G E) as (paths & F & T & L).
  exists paths. split; [exact F|]. split; [exact T|].
  intros before id keep p after B V N. rewrite (L before id _ after B N).
  pose proof (@unquote_runs_quoted keep p V [] [] (Forall_nil _)) as R.
  f_equal. unfold unquote_str.
  destruct (existsb (N.eqb 37) (quote_with keep p)) eqn:X.
  - apply R. intros t. reflexivity.
  - apply quote_without_percent. exact X.
Qed.

Lemma file_paths_store_decoded_witness :
  exists paths,
    file_paths (document [] Sample.mets_xml) = Ok paths
    /\ paths_get (KStr "IMG_2") paths = Some (u "p 2.jpg").
Proof.
  pose (files := fun fs => map (fun f => to_value [] (Sample.file_xml (fst f) (snd f))) fs).
  pose (entries := map (fun f => (u (fst f), u (snd f))) (Sample.img_files ++ Sample.text_files)).
  destruct (@file_paths_store_decoded (document [] Sample.mets_xml)
              [to_value [] (Sample.group_xml "IMG" Sample.img_files);
               to_value [] (Sample.group_xml "TEXT" Sample.text_files)]
              [files Sample.img_files; files Sample.text_files] entries)
    as (paths & P & _ & L).
  - reflexivity.
  - repeat constructor.
  - repeat constructor.
  - exists paths. split; [exact P|].
    apply (L [(u "IMG_1", u "p%201.jpg")] (u "IMG_2")
             (fun c => negb (c =? 32)%N) (u "p 2.jpg")
             (map (fun f => (u (fst f), u (snd f))) Sample.text_files)).
    + reflexivity.
    + repeat constructor; unfold scalar; cbn; lia.
    + cbn. intros [H|[H|[H|[]]]]; discriminate H.
Defined.
